(** * CTAEB: compile-time algebraic expressions, embedded in Rocq

    A shallow embedding of the header-only library under
    [include/ctaeb]: [expression.h] (Constant, Variable, Compound and
    the three Invoker specialisations), [operations.h] (the operator
    overloads that build compounds) and [print.h] (streaming of
    expressions).

    The C++ library is generic over the types of the values that flow
    through an expression; whether an evaluation compiles is decided by
    template instantiation.  The embedding therefore has two layers:
    a static one ([result_type]: does [e(args...)] compile, and with
    which type) and a dynamic one ([run]: what the compiled call does).
    [evaluate] combines them. *)

From Stdlib Require Import ZArith List String Ascii Bool Lia Permutation.
From Stdlib Require Import DecimalString DecimalNat.
Import ListNotations.

Local Open Scope string_scope.
Local Open Scope list_scope.
Local Open Scope Z_scope.

(** ** Values and their C++ types

    The examples instantiate expressions with [int], [bool] and
    [std::string]; these three types are enough to exhibit every
    behaviour the evaluator has (arithmetic, truth tests, a type for
    which a truth test does not compile). *)

Inductive ctype : Type :=
| t_int
| t_bool
| t_string.

Inductive value : Type :=
| v_int (z : Z)
| v_bool (b : bool)
| v_string (s : string).

Definition type_of (v : value) : ctype :=
  match v with
  | v_int _ => t_int
  | v_bool _ => t_bool
  | v_string _ => t_string
  end.

Definition ctype_eqb (a b : ctype) : bool :=
  match a, b with
  | t_int, t_int | t_bool, t_bool | t_string, t_string => true
  | _, _ => false
  end.

(** [int] is 32 bits wide; a signed result outside the range has no
    defined value. *)
Definition INT_MIN : Z := - 2 ^ 31.
Definition INT_MAX : Z := 2 ^ 31 - 1.

Definition in_int (z : Z) : bool := (INT_MIN <=? z) && (z <=? INT_MAX).

Definition mk_int (z : Z) : option value :=
  if in_int z then Some (v_int z) else None.

(** Arithmetic types: [bool] is promoted to [int] by the usual
    arithmetic conversions. *)
Definition arithmetic (T : ctype) : bool :=
  match T with
  | t_int | t_bool => true
  | t_string => false
  end.

Definition as_int (v : value) : option Z :=
  match v with
  | v_int z => Some z
  | v_bool b => Some (if b then 1 else 0)
  | v_string _ => None
  end.

(** Contextual conversion to [bool], as performed by [!x], [if (x)] and
    the operands of the built-in [&&] and [||].  A [std::string] has no
    such conversion. *)
Definition truthy (v : value) : option bool :=
  match v with
  | v_int z => Some (negb (z =? 0))
  | v_bool b => Some b
  | v_string _ => None
  end.

(** ** Operations

    The operation of a compound is a template template parameter.  The
    library knows the function objects of [<functional>] by name (they
    have [to_string] specialisations, and two of them have their own
    [Invoker]); any other class template is a user operation, described
    by what the library asks of it: the call operator of [Op<void>]
    (its type rule and its effect), an optional [to_string<Op>]
    specialisation and an optional static member named [prefixed]. *)

Record user_operation : Type := {
  u_result_type : list ctype -> option ctype;
  u_call : list value -> option value;
  u_to_string : option string;
  u_prefixed_member : option bool
}.

Inductive operation : Type :=
| std_plus
| std_minus
| std_multiplies
| std_divides
| std_negate
| std_equal_to
| std_not_equal_to
| std_less
| std_less_equal
| std_greater
| std_greater_equal
| std_logical_and
| std_logical_or
| std_logical_not
| std_bit_xor
| user (u : user_operation).

(** Which [Invoker] the compiler selects for an operation: the two full
    specialisations, or the primary template. *)
Inductive invoker : Type :=
| primary_template
| logical_and_specialization
| logical_or_specialization.

Definition Invoker (Op : operation) : invoker :=
  match Op with
  | std_logical_and => logical_and_specialization
  | std_logical_or => logical_or_specialization
  | _ => primary_template
  end.

(** *** Static rule of [Op<void>::operator()]

    [None] when the call does not compile for the operand types. *)

Definition arith2 (Ts : list ctype) (R : ctype) : option ctype :=
  match Ts with
  | [a; b] => if arithmetic a && arithmetic b then Some R else None
  | _ => None
  end.

Definition arith1 (Ts : list ctype) (R : ctype) : option ctype :=
  match Ts with
  | [a] => if arithmetic a then Some R else None
  | _ => None
  end.

Definition both_string (Ts : list ctype) : bool :=
  match Ts with
  | [t_string; t_string] => true
  | _ => false
  end.

Definition compare_type (Ts : list ctype) : option ctype :=
  if both_string Ts then Some t_bool else arith2 Ts t_bool.

Definition op_result_type (Op : operation) (Ts : list ctype) : option ctype :=
  match Op with
  | std_plus => if both_string Ts then Some t_string else arith2 Ts t_int
  | std_minus | std_multiplies | std_divides | std_bit_xor => arith2 Ts t_int
  | std_negate => arith1 Ts t_int
  | std_equal_to | std_not_equal_to
  | std_less | std_less_equal | std_greater | std_greater_equal => compare_type Ts
  | std_logical_and | std_logical_or => arith2 Ts t_bool
  | std_logical_not => arith1 Ts t_bool
  | user u => u_result_type u Ts
  end.

(** *** Effect of [Op<void>::operator()]

    [None] when the call has no defined result: signed overflow,
    division by zero, or operands for which the call does not compile. *)

Definition int2 (f : Z -> Z -> option value) (vs : list value) : option value :=
  match vs with
  | [a; b] =>
      match as_int a, as_int b with
      | Some x, Some y => f x y
      | _, _ => None
      end
  | _ => None
  end.

Definition bool2 (f : bool -> bool -> bool) (vs : list value) : option value :=
  match vs with
  | [a; b] =>
      match truthy a, truthy b with
      | Some x, Some y => Some (v_bool (f x y))
      | _, _ => None
      end
  | _ => None
  end.

Definition string_compare_op (c : comparison -> bool) (i : Z -> Z -> bool)
                             (vs : list value) : option value :=
  match vs with
  | [v_string s1; v_string s2] => Some (v_bool (c (String.compare s1 s2)))
  | _ => int2 (fun x y => Some (v_bool (i x y))) vs
  end.

Definition is_Eq (c : comparison) : bool :=
  match c with Eq => true | _ => false end.
Definition is_Lt (c : comparison) : bool :=
  match c with Lt => true | _ => false end.
Definition is_Gt (c : comparison) : bool :=
  match c with Gt => true | _ => false end.

Definition op_call (Op : operation) (vs : list value) : option value :=
  match Op with
  | std_plus =>
      match vs with
      | [v_string s1; v_string s2] => Some (v_string (String.append s1 s2))
      | _ => int2 (fun x y => mk_int (x + y)) vs
      end
  | std_minus => int2 (fun x y => mk_int (x - y)) vs
  | std_multiplies => int2 (fun x y => mk_int (x * y)) vs
  | std_divides =>
      int2 (fun x y => if y =? 0 then None else mk_int (Z.quot x y)) vs
  | std_bit_xor => int2 (fun x y => mk_int (Z.lxor x y)) vs
  | std_negate =>
      match vs with
      | [a] => match as_int a with Some x => mk_int (- x) | None => None end
      | _ => None
      end
  | std_equal_to => string_compare_op is_Eq Z.eqb vs
  | std_not_equal_to =>
      string_compare_op (fun c => negb (is_Eq c)) (fun x y => negb (x =? y)) vs
  | std_less => string_compare_op is_Lt Z.ltb vs
  | std_less_equal => string_compare_op (fun c => negb (is_Gt c)) Z.leb vs
  | std_greater => string_compare_op is_Gt Z.gtb vs
  | std_greater_equal => string_compare_op (fun c => negb (is_Lt c)) Z.geb vs
  | std_logical_and => bool2 andb vs
  | std_logical_or => bool2 orb vs
  | std_logical_not =>
      match vs with
      | [a] => match truthy a with Some x => Some (v_bool (negb x)) | None => None end
      | _ => None
      end
  | user u => u_call u vs
  end.

(** ** Expressions

    [Variable] is a reserved word of Rocq, hence [Variable_]. *)

#[warnings="-register-all"]
Inductive expr : Type :=
| Constant (value_ : value)
| Variable_ (N : nat) (name_ : string)
| Compound (Op : operation) (expressions_ : list expr).

(** Induction over expressions that reaches the nested sub-expressions
    of a compound. *)
Section expr_induction.
Variable P : expr -> Prop.
Hypothesis P_Constant : forall v, P (Constant v).
Hypothesis P_Variable : forall N name, P (Variable_ N name).
Hypothesis P_Compound : forall Op es, Forall P es -> P (Compound Op es).

Fixpoint expr_nested_ind (e : expr) : P e :=
  match e with
  | Constant v => P_Constant v
  | Variable_ N name => P_Variable N name
  | Compound Op es =>
      P_Compound Op es
        ((fix all (l : list expr) : Forall P l :=
            match l with
            | [] => Forall_nil P
            | x :: l' => Forall_cons x (expr_nested_ind x) (all l')
            end) es)
  end.
End expr_induction.

(** ** Building expressions ([operations.h])

    Each overload wraps its operands in a [Compound] over the matching
    function object; a non-expression operand becomes a [Constant] of
    its own type.  The overloads with a non-expression operand are
    given here for an operand that is an rvalue (a literal, a
    temporary): [T] is then deduced as a value type and the [Constant]
    holds a copy.  For an operand that is an lvalue, see the operands
    held by reference below. *)

Definition operator_plus (x y : expr) : expr := Compound std_plus [x; y].
Definition operator_plus_ET (x : expr) (y : value) : expr :=
  Compound std_plus [x; Constant y].
Definition operator_plus_TE (x : value) (y : expr) : expr :=
  Compound std_plus [Constant x; y].
Definition operator_minus (x y : expr) : expr := Compound std_minus [x; y].
Definition operator_multiplies (x y : expr) : expr :=
  Compound std_multiplies [x; y].
Definition operator_divides (x y : expr) : expr := Compound std_divides [x; y].
Definition operator_equal_to (x y : expr) : expr :=
  Compound std_equal_to [x; y].
Definition operator_not_equal_to (x y : expr) : expr :=
  Compound std_not_equal_to [x; y].
Definition operator_less (x y : expr) : expr := Compound std_less [x; y].
Definition operator_greater_equal (x y : expr) : expr :=
  Compound std_greater_equal [x; y].
Definition operator_logical_and (x y : expr) : expr :=
  Compound std_logical_and [x; y].
Definition operator_logical_or (x y : expr) : expr :=
  Compound std_logical_or [x; y].
Definition operator_logical_not (x : expr) : expr :=
  Compound std_logical_not [x].
Definition operator_negate (x : expr) : expr := Compound std_negate [x].

(** [Variable()] names the variable after its index: an underscore
    followed by [std::to_string(N)]. *)
Definition std_to_string (n : nat) : string :=
  NilZero.string_of_uint (Nat.to_uint n).

Definition Variable_default (N : nat) : expr :=
  Variable_ N (String.append "_" (std_to_string N)).

(** ** Static layer: does [e(args...)] compile, and with which type *)

(** [std::get<N - 1>] over the argument pack.  [N] is a [size_t]: for
    [N = 0] the index wraps to the largest [size_t], which no pack
    reaches. *)
Definition std_get {X : Type} (N : nat) (pack : list X) : option X :=
  match N with
  | O => None
  | S n => nth_error pack n
  end.

Fixpoint all_some {X : Type} (l : list (option X)) : option (list X) :=
  match l with
  | [] => Some []
  | None :: _ => None
  | Some x :: l' =>
      match all_some l' with
      | Some xs => Some (x :: xs)
      | None => None
      end
  end.

(** The two specialisations only have a call operator for a tuple of
    exactly two sub-expressions.  Both [return] statements must deduce
    the same type: [bool] from the literal, hence [bool] from the
    function object; [!res1] (or [if (res1)]) must compile too. *)
Definition short_circuit_type (Op : operation) (Rs : list (option ctype))
  : option ctype :=
  match Rs with
  | [Some T1; Some T2] =>
      if arithmetic T1 then
        match op_result_type Op [T1; T2] with
        | Some t_bool => Some t_bool
        | _ => None
        end
      else None
  | _ => None
  end.

Fixpoint result_type (e : expr) (Ts : list ctype) : option ctype :=
  match e with
  | Constant v => Some (type_of v)
  | Variable_ N _ => std_get N Ts
  | Compound Op es =>
      let Rs := map (fun c => result_type c Ts) es in
      match Invoker Op with
      | primary_template =>
          match all_some Rs with
          | Some Rs' => op_result_type Op Rs'
          | None => None
          end
      | _ => short_circuit_type Op Rs
      end
  end.

Definition builds (e : expr) (A : list value) : bool :=
  match result_type e (map type_of A) with
  | Some _ => true
  | None => false
  end.

(** ** Dynamic layer: what a compiled evaluation does

    An evaluation is observed through the calls it makes.  Every
    [operator()] of an expression records its invocation and its
    return; an invoker records the call of the function object with the
    values it passes.  An event carries the position of the expression
    it belongs to, as the path of child indices from the expression
    being evaluated. *)

Inductive action : Type :=
| Invoke (args : list value)
| Apply (results : list value)
| Return (v : value).

Definition event : Type := list nat * action.
Definition trace : Type := list event.

Definition here (a : action) : event := ([], a).

(** The events of child [i], seen from its parent. *)
Definition inside (i : nat) (t : trace) : trace :=
  map (fun ev => (i :: fst ev, snd ev)) t.

(** The primary [Invoker] expands the children as the arguments of one
    function call, [op(std::get<I>(tuple)(args...)...)].  C++
    ([expr.call]) sequences the arguments of a call indeterminately:
    they are evaluated one after the other, never interleaved, in an
    order left to the implementation.  A [schedule] is that choice: for
    a call with [k] arguments, the order in which their indices are
    evaluated. *)
Definition schedule : Type := nat -> list nat.

Definition admissible (order : schedule) : Prop :=
  forall k, Permutation (order k) (seq 0 k).

Definition left_to_right : schedule := fun k => seq 0 k.
Definition right_to_left : schedule := fun k => rev (seq 0 k).

(** [None] throughout this layer: the evaluation has no defined
    behaviour. *)
Definition computation : Type := option (trace * value).

(** The events of the children of a call, in the order [ord]; [rs]
    holds what each child does, by position.  No [operator()] of the
    library writes anything another could read, so what a child does
    is the same wherever it comes in the order. *)
Fixpoint sequence (ord : list nat) (rs : list computation) : option trace :=
  match ord with
  | [] => Some []
  | i :: ord' =>
      match nth_error rs i with
      | Some (Some (t, _)) =>
          match sequence ord' rs with
          | Some t' => Some (inside i t ++ t')
          | None => None
          end
      | _ => None
      end
  end.

(** [Invoker<Operation>::eval]: every child is called with the same
    arguments, then [op] is called on the results, by position. *)
Definition Invoker_eval (order : schedule) (Op : operation)
    (call : expr -> computation) (tuple : list expr) (A : list value)
  : computation :=
  let rs := map call tuple in
  match sequence (order (List.length tuple)) rs, all_some rs with
  | Some t, Some tvs =>
      let Rs := map snd tvs in
      match op_call Op Rs with
      | Some v => Some (here (Invoke A) :: t ++ [here (Apply Rs); here (Return v)], v)
      | None => None
      end
  | _, _ => None
  end.

(** [Invoker<std::logical_and>::operator()]. *)
Definition Invoker_logical_and (call : expr -> computation)
    (tuple : list expr) (A : list value) : computation :=
  match tuple with
  | [e1; e2] =>
      match call e1 with
      | None => None
      | Some (t1, res1) =>
          match truthy res1 with
          | None => None
          | Some false =>
              Some (here (Invoke A) :: inside 0 t1
                      ++ [here (Return (v_bool false))],
                    v_bool false)
          | Some true =>
              match call e2 with
              | None => None
              | Some (t2, res2) =>
                  match op_call std_logical_and [res1; res2] with
                  | None => None
                  | Some v =>
                      Some (here (Invoke A) :: inside 0 t1 ++ inside 1 t2
                              ++ [here (Apply [res1; res2]); here (Return v)],
                            v)
                  end
              end
          end
      end
  | _ => None
  end.

(** [Invoker<std::logical_or>::operator()]. *)
Definition Invoker_logical_or (call : expr -> computation)
    (tuple : list expr) (A : list value) : computation :=
  match tuple with
  | [e1; e2] =>
      match call e1 with
      | None => None
      | Some (t1, res1) =>
          match truthy res1 with
          | None => None
          | Some true =>
              Some (here (Invoke A) :: inside 0 t1
                      ++ [here (Return (v_bool true))],
                    v_bool true)
          | Some false =>
              match call e2 with
              | None => None
              | Some (t2, res2) =>
                  match op_call std_logical_or [res1; res2] with
                  | None => None
                  | Some v =>
                      Some (here (Invoke A) :: inside 0 t1 ++ inside 1 t2
                              ++ [here (Apply [res1; res2]); here (Return v)],
                            v)
                  end
              end
          end
      end
  | _ => None
  end.

(** [operator()] of the three expression classes. *)
Fixpoint run (order : schedule) (e : expr) (A : list value) : computation :=
  match e with
  | Constant value_ =>
      Some ([here (Invoke A); here (Return value_)], value_)
  | Variable_ N _ =>
      match std_get N A with
      | Some v => Some ([here (Invoke A); here (Return v)], v)
      | None => None
      end
  | Compound Op expressions_ =>
      match Invoker Op with
      | primary_template =>
          Invoker_eval order Op (fun c => run order c A) expressions_ A
      | logical_and_specialization =>
          Invoker_logical_and (fun c => run order c A) expressions_ A
      | logical_or_specialization =>
          Invoker_logical_or (fun c => run order c A) expressions_ A
      end
  end.

(** ** Evaluation of a built expression with an argument list *)

Inductive outcome : Type :=
| BuildFailure
| Undefined
| Returns (t : trace) (v : value).

Definition evaluate (order : schedule) (e : expr) (A : list value) : outcome :=
  if builds e A then
    match run order e A with
    | Some (t, v) => Returns t v
    | None => Undefined
    end
  else BuildFailure.

Definition returned (o : outcome) : option value :=
  match o with
  | Returns _ v => Some v
  | _ => None
  end.

(** ** Printing ([print.h])

    A [std::ostream] is modelled by the characters written to it so
    far, in the formatting state of a freshly constructed stream (the
    state of the [std::stringstream] that [to_string] writes to);
    [os << s] appends.  [None]: the print does not build (no
    [to_string] specialisation for an operation of the expression). *)

Definition ostream : Type := string.

Definition put (os : ostream) (s : string) : ostream := String.append os s.

(** The [to_string<Operation>()] specialisations. *)
Definition to_string_op (Op : operation) : option string :=
  match Op with
  | std_plus => Some "+"
  | std_multiplies => Some "*"
  | std_divides => Some "/"
  | std_minus => Some "-"
  | std_negate => Some "-"
  | std_equal_to => Some "=="
  | std_not_equal_to => Some "!="
  | std_less => Some "<"
  | std_less_equal => Some "<="
  | std_greater_equal => Some ">="
  | std_greater => Some ">"
  | std_logical_and => Some "&&"
  | std_logical_or => Some "||"
  | std_logical_not => Some "not "
  | std_bit_xor => Some "^"
  | user u => u_to_string u
  end.

(** [prefixed<Op>::value]: whether [Op<>] has a member named
    [prefixed]; the member's value is not read. *)
Definition prefixed (Op : operation) : bool :=
  match Op with
  | user u =>
      match u_prefixed_member u with
      | Some _ => true
      | None => false
      end
  | _ => false
  end.

(** [os << v] for the value types; [bool] prints as [1] or [0]. *)
Definition put_value (os : ostream) (v : value) : ostream :=
  match v with
  | v_int z => put os (NilZero.string_of_int (Z.to_int z))
  | v_bool b => put os (if b then "1" else "0")
  | v_string s => put os s
  end.

(** [print::emit], after [os << x] has produced [os']. *)
Definition emit_separator (os' : ostream) (last : bool) : ostream :=
  if last then os' else put os' ", ".

(** [operator<<] for the three expression classes.  The local [print]
    is [print::print] over the tuple of nested expressions: the braced
    list runs [emit] for the indices in increasing order. *)
Fixpoint stream (os : ostream) (e : expr) : option ostream :=
  match e with
  | Constant value_ => Some (put_value os value_)
  | Variable_ _ name_ => Some (put os name_)
  | Compound Op expressions_ =>
      let size := List.length expressions_ in
      let print :=
        fix print (I : nat) (os : ostream) (tuple : list expr) : option ostream :=
          match tuple with
          | [] => Some os
          | x :: rest =>
              match stream os x with
              | Some os' => print (S I) (emit_separator os' (size <=? I + 1)%nat) rest
              | None => None
              end
          end in
      match to_string_op Op with
      | None => None
      | Some op =>
          match expressions_ with
          | [x] =>
              if prefixed Op then
                match stream (put (put os op) "(") x with
                | Some os' => Some (put os' ")")
                | None => None
                end
              else stream (put os op) x
          | [x1; x2] =>
              if prefixed Op then
                match print 0%nat (put (put os op) "(") expressions_ with
                | Some os' => Some (put os' ")")
                | None => None
                end
              else
                match stream os x1 with
                | Some os' => stream (put (put (put os' " ") op) " ") x2
                | None => None
                end
          | _ =>
              match print 0%nat (put (put os op) "(") expressions_ with
              | Some os' => Some (put os' ")")
              | None => None
              end
          end
      end
  end.

(** [to_string(expr)]: stream into an empty [std::stringstream]. *)
Definition to_string (e : expr) : option string := stream EmptyString e.

(** ** The operations and expressions of the examples *)

(** [CustomOperator] of [example/prefixed_operator.cc]: a conditional
    with a [prefixed] member, printed as [?:].  The example only
    prints it, and only the two printing fields are used below.  The
    call fields give the operator on alternatives of one type; the
    embedding has no value categories, on which the real call operator
    also depends. *)
Definition CustomOperator : user_operation := {|
  u_result_type := fun Ts =>
    match Ts with
    | [c; a; b] => if arithmetic c && ctype_eqb a b then Some a else None
    | _ => None
    end;
  u_call := fun vs =>
    match vs with
    | [c; s1; s2] =>
        match truthy c with
        | Some condition =>
            if ctype_eqb (type_of s1) (type_of s2)
            then Some (if condition then s1 else s2)
            else None
        | None => None
        end
    | _ => None
    end;
  u_to_string := Some "?:";
  u_prefixed_member := Some true
|}.

(** [sum2] of [example/expression.cc]: [(_1 + _2) + (_1 - _2)]. *)
Definition sum2 (x y : expr) : expr :=
  operator_plus (operator_plus x y) (operator_minus x y).

(** ** Observations

    What the properties below read off a computation, an outcome or a
    trace. *)

(** The value of a computation, without its trace. *)
Definition value_of (c : computation) : option value := option_map snd c.

(** Two outcomes agree up to the order in which the calls were made. *)
Definition same_result (o1 o2 : outcome) : Prop :=
  match o1, o2 with
  | BuildFailure, BuildFailure => True
  | Undefined, Undefined => True
  | Returns _ v1, Returns _ v2 => v1 = v2
  | _, _ => False
  end.

(** The events of the children of a call whose children all return
    ([tvs], by position), in the order [ord]. *)
Definition child_events (tvs : list (trace * value)) (i : nat) : trace :=
  match nth_error tvs i with
  | Some (t, _) => inside i t
  | None => []
  end.

Fixpoint path_eqb (p q : list nat) : bool :=
  match p, q with
  | [], [] => true
  | i :: p', j :: q' => (i =? j)%nat && path_eqb p' q'
  | _, _ => false
  end.

(** The argument lists with which the expression at position [p] was
    invoked, in order. *)
Definition calls_at (p : list nat) (t : trace) : list (list value) :=
  flat_map (fun ev =>
              match snd ev with
              | Invoke args =>
                  if path_eqb (fst ev) p then [args] else []
              | _ => []
              end) t.

(** The children of the evaluated expression, in the order in which
    they were invoked. *)
Definition child_invocations (t : trace) : list nat :=
  flat_map (fun ev =>
              match ev with
              | ([i], Invoke _) => [i]
              | _ => []
              end) t.

(** Some event of [t] comes from child [i] or from below it. *)
Definition touches (i : nat) (t : trace) : Prop :=
  exists p a, In (i :: p, a) t.

(** The reading of the default rule that fixes the order: whatever
    admissible order the compiler chose, the children are invoked from
    the first to the last. *)
Definition children_invoked_left_to_right : Prop :=
  forall (order : schedule) (Op : operation) (es : list expr)
         (A : list value) (t : trace) (v : value),
    admissible order ->
    Invoker Op = primary_template ->
    evaluate order (Compound Op es) A = Returns t v ->
    child_invocations t = seq 0 (List.length es).

(** [print::print] as a function of its own; [stream] runs it on the
    tuple of a compound. *)
Fixpoint print_tuple (size I : nat) (os : ostream) (tuple : list expr)
  : option ostream :=
  match tuple with
  | [] => Some os
  | x :: rest =>
      match stream os x with
      | Some os' =>
          print_tuple size (S I) (emit_separator os' (size <=? I + 1)%nat) rest
      | None => None
      end
  end.

(** Expressions over the fifteen function objects of [<functional>]
    that the library names (those of [operation]) only. *)
Fixpoint std_only (e : expr) : bool :=
  match e with
  | Constant _ | Variable_ _ _ => true
  | Compound Op es =>
      match Op with
      | user _ => false
      | _ => forallb std_only es
      end
  end.

(** [r] written onto [os]. *)
Definition onto (os : ostream) (r : option string) : option ostream :=
  option_map (put os) r.

(** ** Further observations on expressions *)

(** The indices of the variables that occur in an expression. *)
Fixpoint indices (e : expr) : list nat :=
  match e with
  | Constant _ => []
  | Variable_ N _ => [N]
  | Compound _ es => flat_map indices es
  end.

(** The same expression with other names for its variables. *)
Fixpoint rename (f : nat -> string -> string) (e : expr) : expr :=
  match e with
  | Constant v => Constant v
  | Variable_ N name => Variable_ N (f N name)
  | Compound Op es => Compound Op (map (rename f) es)
  end.

(** Comparisons and logical operations: the function objects whose
    built-in operators are defined for all operands they accept. *)
Definition never_undefined (Op : operation) : bool :=
  match Op with
  | std_equal_to | std_not_equal_to
  | std_less | std_less_equal | std_greater | std_greater_equal
  | std_logical_and | std_logical_or | std_logical_not => true
  | _ => false
  end.

Fixpoint comparisons_only (e : expr) : bool :=
  match e with
  | Constant _ | Variable_ _ _ => true
  | Compound Op es => never_undefined Op && forallb comparisons_only es
  end.



(** Texts separated by a comma and a space. *)
Fixpoint comma_separated (rs : list string) : string :=
  match rs with
  | [] => EmptyString
  | r :: rest =>
      match rest with
      | [] => r
      | _ :: _ => String.append r (String.append ", " (comma_separated rest))
      end
  end.

(** [commutativity_check] of [example/compound.cc]:
    [(_1 + _2) == (_2 + _1)]. *)
Definition commutativity_check : expr :=
  operator_equal_to
    (operator_plus (Variable_default 1) (Variable_default 2))
    (operator_plus (Variable_default 2) (Variable_default 1)).

(** ** Operands held by reference

    [operator+(E &&x, T &&y)] builds [Constant<T>] from the deduced
    [T].  For an operand that is an lvalue, [T] is a reference type,
    and the member [const T value_] of [Constant<T>] is then a
    reference to the caller's object, not the copy that the
    documentation of the constructor announces.  [held] is an
    expression as the compound holds it: a constant is a copy or a
    reference into the caller's memory.  (The lifetime of the object
    referred to is not modelled: every location holds a value.) *)

Definition location : Type := nat.

Definition memory : Type := location -> value.

#[warnings="-register-all"]
Inductive held : Type :=
| Constant_copy (value_ : value)
| Constant_reference (value_ : location)
| Variable_held (N : nat) (name_ : string)
| Compound_held (Op : operation) (expressions_ : list held).

(** What the held expression is at the time of a call: [value_] of a
    referring constant is what the caller's object holds then. *)
Fixpoint read (m : memory) (h : held) : expr :=
  match h with
  | Constant_copy v => Constant v
  | Constant_reference l => Constant (m l)
  | Variable_held N name => Variable_ N name
  | Compound_held Op hs => Compound Op (map (read m) hs)
  end.

(** Induction over held expressions that reaches the nested ones. *)
Section held_induction.
Variable P : held -> Prop.
Hypothesis P_copy : forall v, P (Constant_copy v).
Hypothesis P_reference : forall l, P (Constant_reference l).
Hypothesis P_Variable : forall N name, P (Variable_held N name).
Hypothesis P_Compound : forall Op hs, Forall P hs -> P (Compound_held Op hs).

Fixpoint held_nested_ind (h : held) : P h :=
  match h with
  | Constant_copy v => P_copy v
  | Constant_reference l => P_reference l
  | Variable_held N name => P_Variable N name
  | Compound_held Op hs =>
      P_Compound Op hs
        ((fix all (l : list held) : Forall P l :=
            match l with
            | [] => Forall_nil P
            | x :: l' => Forall_cons x (held_nested_ind x) (all l')
            end) hs)
  end.
End held_induction.

(** The locations an expression refers to. *)
Fixpoint references (h : held) : list location :=
  match h with
  | Constant_copy _ | Variable_held _ _ => []
  | Constant_reference l => [l]
  | Compound_held _ hs => flat_map references hs
  end.

(** The overloads of [operator+] with a non-expression operand that is
    an lvalue, at location [y] (resp. [x]). *)
Definition operator_plus_ET_lvalue (x : held) (y : location) : held :=
  Compound_held std_plus [x; Constant_reference y].
Definition operator_plus_TE_lvalue (x : location) (y : held) : held :=
  Compound_held std_plus [Constant_reference x; y].

(** What the caller does with an expression it has built: call it, or
    assign to one of its own objects between two calls.  No
    [operator()] of the library writes to memory, so only an
    assignment changes it. *)
Inductive statement : Type :=
| call_with (A : list value)
| assign (l : location) (v : value).

Definition update (m : memory) (l : location) (v : value) : memory :=
  fun l' => if (l' =? l)%nat then v else m l'.

(** The outcomes of the calls of a sequence of statements, in order. *)
Fixpoint session (order : schedule) (h : held) (m : memory)
    (program : list statement) : list outcome :=
  match program with
  | [] => []
  | call_with A :: rest =>
      evaluate order (read m h) A :: session order h m rest
  | assign l v :: rest => session order h (update m l v) rest
  end.

(** * Properties *)

(** ** Lists of optional results *)

Lemma all_some_map_Some {X : Type} (xs : list X) :
  all_some (map Some xs) = Some xs.
Proof.
  induction xs as [|x xs IH]; simpl; [reflexivity|].
  now rewrite IH.
Qed.

Lemma all_some_inv {X : Type} (l : list (option X)) (xs : list X) :
  all_some l = Some xs -> l = map Some xs.
Proof.
  revert xs; induction l as [|[x|] l IH]; simpl; intros xs H.
  - now inversion H.
  - destruct (all_some l) as [ys|] eqn:E; [|discriminate].
    inversion H; subst; simpl. now rewrite (IH ys eq_refl).
  - discriminate.
Qed.

Lemma all_some_Forall2 {X Y : Type} (f : X -> option Y) (xs : list X) (ys : list Y) :
  Forall2 (fun x y => f x = Some y) xs ys <-> all_some (map f xs) = Some ys.
Proof.
  split.
  - induction 1 as [|x y xs ys Hxy _ IH]; simpl; [reflexivity|].
    now rewrite Hxy, IH.
  - revert ys; induction xs as [|x xs IH]; simpl; intros ys H.
    + inversion H; constructor.
    + destruct (f x) as [y|] eqn:Ex; [|discriminate].
      destruct (all_some (map f xs)) as [ys'|] eqn:E; [|discriminate].
      inversion H; subst. constructor; auto.
Qed.

Lemma admissible_bound (order : schedule) (k : nat) :
  admissible order -> Forall (fun i => (i < k)%nat) (order k).
Proof.
  intros Hadm. apply Forall_forall. intros i Hi.
  apply (Permutation_in _ (Hadm k)) in Hi.
  apply in_seq in Hi. lia.
Qed.

Lemma admissible_left_to_right : admissible left_to_right.
Proof. intro k. apply Permutation_refl. Qed.

Lemma admissible_right_to_left : admissible right_to_left.
Proof. intro k. apply Permutation_sym, Permutation_rev. Qed.

Lemma sequence_all_return (ord : list nat) (tvs : list (trace * value)) :
  Forall (fun i => (i < List.length tvs)%nat) ord ->
  sequence ord (map Some tvs) = Some (flat_map (child_events tvs) ord).
Proof.
  induction 1 as [|i ord Hi _ IH]; simpl; [reflexivity|].
  rewrite nth_error_map. unfold child_events at 1.
  destruct (nth_error tvs i) as [[t v]|] eqn:E; simpl.
  - now rewrite IH.
  - apply nth_error_None in E. lia.
Qed.

(** What the primary invoker does once every child returns. *)
Lemma Invoker_eval_returns (order : schedule) (Op : operation)
    (call : expr -> computation) (tuple : list expr) (A : list value)
    (tvs : list (trace * value)) :
  admissible order ->
  all_some (map call tuple) = Some tvs ->
  Invoker_eval order Op call tuple A =
    match op_call Op (map snd tvs) with
    | Some v =>
        Some (here (Invoke A)
                :: flat_map (child_events tvs) (order (List.length tuple))
                ++ [here (Apply (map snd tvs)); here (Return v)], v)
    | None => None
    end.
Proof.
  intros Hadm Hall. unfold Invoker_eval.
  rewrite Hall. rewrite (all_some_inv _ _ Hall).
  rewrite sequence_all_return; [reflexivity|].
  assert (List.length tvs = List.length tuple) as ->.
  { apply all_some_inv in Hall.
    rewrite <- (length_map call tuple), Hall. now rewrite length_map. }
  now apply admissible_bound.
Qed.

Lemma Invoker_eval_undefined (order : schedule) (Op : operation)
    (call : expr -> computation) (tuple : list expr) (A : list value) :
  all_some (map call tuple) = None ->
  Invoker_eval order Op call tuple A = None.
Proof.
  intros Hall. unfold Invoker_eval. rewrite Hall.
  now destruct (sequence _ _).
Qed.

(** ** The value of an evaluation does not depend on the schedule *)

Lemma all_some_values (f g : expr -> computation) (es : list expr) :
  Forall (fun c => value_of (f c) = value_of (g c)) es ->
  option_map (map snd) (all_some (map f es))
  = option_map (map snd) (all_some (map g es)).
Proof.
  induction 1 as [|c es Hc _ IH]; simpl; [reflexivity|].
  unfold value_of in Hc.
  destruct (f c) as [[t v]|], (g c) as [[t' v']|]; simpl in Hc;
    try discriminate; try reflexivity.
  inversion Hc; subst v'.
    destruct (all_some (map f es)), (all_some (map g es));
      simpl in IH; try discriminate; try reflexivity.
    inversion IH as [Hrest]. simpl. now rewrite Hrest.
Qed.

Lemma Invoker_eval_value (order : schedule) (Op : operation)
    (call : expr -> computation) (tuple : list expr) (A : list value) :
  admissible order ->
  value_of (Invoker_eval order Op call tuple A)
  = match option_map (map snd) (all_some (map call tuple)) with
    | Some Rs => op_call Op Rs
    | None => None
    end.
Proof.
  intros Hadm.
  destruct (all_some (map call tuple)) as [tvs|] eqn:Hall; simpl.
  - rewrite (Invoker_eval_returns _ _ _ _ _ _ Hadm Hall).
    now destruct (op_call Op (map snd tvs)).
  - now rewrite Invoker_eval_undefined.
Qed.

Lemma run_value_schedule (order order' : schedule) (e : expr) (A : list value) :
  admissible order -> admissible order' ->
  value_of (run order e A) = value_of (run order' e A).
Proof.
  intros Hadm Hadm'.
  induction e as [v|N name|Op es IH] using expr_nested_ind;
    [reflexivity|reflexivity|].
  simpl. destruct (Invoker Op).
  - rewrite !Invoker_eval_value by assumption.
    now rewrite (all_some_values _ _ es IH).
  - destruct es as [|e1 [|e2 [|e3 es]]]; try reflexivity. simpl.
    inversion IH as [|? ? H1 IH']; subst. inversion IH' as [|? ? H2 _]; subst.
    unfold value_of in H1, H2.
    destruct (run order e1 A) as [[t1 r1]|], (run order' e1 A) as [[t1' r1']|];
      simpl in H1; try discriminate; try reflexivity.
    inversion H1; subst r1'.
    destruct (truthy r1) as [[|]|]; try reflexivity.
    destruct (run order e2 A) as [[t2 r2]|], (run order' e2 A) as [[t2' r2']|];
      simpl in H2; try discriminate; try reflexivity.
    inversion H2; subst r2'.
    now destruct (truthy r2).
  - destruct es as [|e1 [|e2 [|e3 es]]]; try reflexivity. simpl.
    inversion IH as [|? ? H1 IH']; subst. inversion IH' as [|? ? H2 _]; subst.
    unfold value_of in H1, H2.
    destruct (run order e1 A) as [[t1 r1]|], (run order' e1 A) as [[t1' r1']|];
      simpl in H1; try discriminate; try reflexivity.
    inversion H1; subst r1'.
    destruct (truthy r1) as [[|]|]; try reflexivity.
    destruct (run order e2 A) as [[t2 r2]|], (run order' e2 A) as [[t2' r2']|];
      simpl in H2; try discriminate; try reflexivity.
    inversion H2; subst r2'.
    now destruct (truthy r2).
Qed.

(** ** Evaluation, outcome by outcome *)

Lemma evaluate_Returns (order : schedule) (e : expr) (A : list value)
    (t : trace) (v : value) :
  evaluate order e A = Returns t v <->
  builds e A = true /\ run order e A = Some (t, v).
Proof.
  unfold evaluate. destruct (builds e A).
  - destruct (run order e A) as [[t' v']|]; split.
    + intros H; inversion H; auto.
    + intros [_ H]; inversion H; auto.
    + discriminate.
    + intros [_ H]; discriminate.
  - split; [discriminate|]. intros [H _]; discriminate.
Qed.

Lemma returned_evaluate (order : schedule) (e : expr) (A : list value) :
  returned (evaluate order e A)
  = if builds e A then value_of (run order e A) else None.
Proof.
  unfold evaluate. destruct (builds e A); [|reflexivity].
  now destruct (run order e A) as [[t v]|].
Qed.

Lemma std_get_short {X : Type} (N : nat) (pack : list X) :
  (List.length pack < N)%nat -> std_get N pack = None.
Proof.
  destruct N as [|n]; [reflexivity|]. simpl. intros H.
  apply nth_error_None. lia.
Qed.

Lemma evaluate_same_result (order order' : schedule) (e : expr) (A : list value) :
  admissible order -> admissible order' ->
  same_result (evaluate order e A) (evaluate order' e A).
Proof.
  intros Hadm Hadm'.
  pose proof (run_value_schedule order order' e A Hadm Hadm') as H.
  unfold evaluate. destruct (builds e A); [|exact I].
  unfold value_of in H.
  destruct (run order e A) as [[t v]|], (run order' e A) as [[t' v']|];
    simpl in *; try discriminate; try exact I.
  now inversion H.
Qed.

(** ** The two layers agree

    For the function objects of [<functional>], a call that returns a
    value returns one of the type the static rule announces. *)

Lemma op_call_result_type (Op : operation) (vs : list value) (v : value) :
  (forall u, Op <> user u) ->
  op_call Op vs = Some v ->
  op_result_type Op (map type_of vs) = Some (type_of v).
Proof.
  intros Hstd H.
  destruct Op; try (exfalso; eapply Hstd; reflexivity);
    destruct vs as [|[x|x|x] [|[y|y|y] [|c vs]]]; simpl in *;
    try discriminate;
    unfold mk_int in *;
    repeat match goal with
           | H : context [if ?c then _ else _] |- _ => destruct c
           end;
    try discriminate; inversion H; reflexivity.
Qed.

Lemma run_result_type (order : schedule) (e : expr) (A : list value) :
  std_only e = true ->
  forall (T : ctype) (t : trace) (v : value),
    result_type e (map type_of A) = Some T ->
    run order e A = Some (t, v) ->
    type_of v = T.
Proof.
  induction e as [c|N name|Op es IH] using expr_nested_ind;
    intros Hstd T t v HT Hrun.
  - simpl in *. inversion HT; inversion Hrun; subst. reflexivity.
  - simpl in *. destruct N as [|n]; [discriminate|]. simpl in *.
    rewrite nth_error_map in HT.
    destruct (nth_error A n) as [a|]; [|discriminate].
    inversion HT; inversion Hrun; subst. reflexivity.
  - assert (forall u, Op <> user u) as HOp
        by (intros u ->; discriminate).
    assert (Forall (fun c => std_only c = true) es) as Hes.
    { apply Forall_forall. intros c Hc.
      assert (forallb std_only es = true) as Hall
          by (destruct Op; simpl in Hstd; congruence).
      rewrite forallb_forall in Hall. now apply Hall. }
    simpl in HT, Hrun. destruct (Invoker Op) eqn:HInv.
    + unfold Invoker_eval in Hrun.
      destruct (sequence _ _) as [t'|]; [|discriminate].
      destruct (all_some (map (fun c => run order c A) es)) as [tvs|] eqn:Hall;
        [|discriminate].
      destruct (op_call Op (map snd tvs)) as [r|] eqn:Hcall; [|discriminate].
      inversion Hrun; subst r.
      destruct (all_some (map (fun c => result_type c (map type_of A)) es))
        as [Rs|] eqn:HRs; [|discriminate].
      apply op_call_result_type in Hcall; [|exact HOp].
      assert (Rs = map type_of (map snd tvs)) as ->; [|congruence].
      apply (all_some_Forall2 (fun c => run order c A)) in Hall.
      apply (all_some_Forall2 (fun c => result_type c (map type_of A))) in HRs.
      clear - IH Hes Hall HRs. revert Rs HRs.
      induction Hall as [|c [tc vc] es tvs Hc _ IHall]; intros Rs HRs;
        inversion HRs; subst; [reflexivity|].
      inversion IH; subst. inversion Hes; subst.
      simpl. f_equal; [|now apply IHall].
      symmetry. eauto.
    + destruct Op; try discriminate.
      assert (T = t_bool) as ->.
      { destruct es as [|e1 [|e2 [|e3 es]]]; simpl in HT; try discriminate.
        destruct (result_type e1 _) as [[| |]|]; try discriminate;
          destruct (result_type e2 _) as [[| |]|]; simpl in HT;
          try discriminate; now inversion HT. }
      destruct es as [|e1 [|e2 [|e3 es]]]; simpl in Hrun; try discriminate.
      destruct (run order e1 A) as [[t1 r1]|]; [|discriminate].
      destruct (truthy r1) as [[|]|]; try discriminate.
      * destruct (run order e2 A) as [[t2 r2]|]; [|discriminate].
        destruct (truthy r2); [|discriminate]. now inversion Hrun.
      * now inversion Hrun.
    + destruct Op; try discriminate.
      assert (T = t_bool) as ->.
      { destruct es as [|e1 [|e2 [|e3 es]]]; simpl in HT; try discriminate.
        destruct (result_type e1 _) as [[| |]|]; try discriminate;
          destruct (result_type e2 _) as [[| |]|]; simpl in HT;
          try discriminate; now inversion HT. }
      destruct es as [|e1 [|e2 [|e3 es]]]; simpl in Hrun; try discriminate.
      destruct (run order e1 A) as [[t1 r1]|]; [|discriminate].
      destruct (truthy r1) as [[|]|]; try discriminate.
      * now inversion Hrun.
      * destruct (run order e2 A) as [[t2 r2]|]; [|discriminate].
        destruct (truthy r2); [|discriminate]. now inversion Hrun.
Qed.

(** ** Constants and variables *)

(** C6: a constant evaluated with any argument list, the empty one
    included, returns its stored value; the arguments are neither read
    nor counted. *)
Theorem Constant_returns_stored_value (order : schedule) (v : value)
    (A : list value) :
  evaluate order (Constant v) A
  = Returns [here (Invoke A); here (Return v)] v.
Proof. reflexivity. Qed.

(** A variable whose index is 0 never builds: there is no argument
    before the first. *)
Lemma Variable_zero_never_builds (order : schedule) (name : string)
    (A : list value) :
  evaluate order (Variable_ 0 name) A = BuildFailure.
Proof. reflexivity. Qed.

(** C5: a variable of index [N] (indices start at 1) evaluated with at
    least [N] arguments returns the [N]-th of them; with fewer than [N]
    arguments the evaluation does not build, which is a different
    outcome from an evaluation that builds and then fails. *)
Theorem Variable_returns_Nth_argument (order : schedule) (N : nat)
    (name : string) (A : list value) :
  ((1 <= N <= List.length A)%nat ->
   exists v, nth_error A (N - 1) = Some v /\
             evaluate order (Variable_ N name) A
             = Returns [here (Invoke A); here (Return v)] v)
  /\
  ((List.length A < N)%nat ->
   evaluate order (Variable_ N name) A = BuildFailure /\
   evaluate order (Variable_ N name) A <> Undefined).
Proof.
  split.
  - intros [H1 HN]. destruct N as [|n]; [lia|].
    replace (S n - 1)%nat with n by lia.
    destruct (nth_error A n) as [v|] eqn:E.
    + exists v. split; [reflexivity|].
      unfold evaluate, builds. simpl.
      rewrite nth_error_map, E. reflexivity.
    + apply nth_error_None in E. lia.
  - intros Hlt.
    assert (evaluate order (Variable_ N name) A = BuildFailure) as ->.
    { unfold evaluate, builds. simpl.
      now rewrite std_get_short by (rewrite length_map; exact Hlt). }
    split; [reflexivity|discriminate].
Qed.

Lemma Variable_returns_Nth_argument_witness :
  (exists v, nth_error [v_int 7; v_int 8] (2 - 1) = Some v /\
             evaluate left_to_right (Variable_ 2 "y") [v_int 7; v_int 8]
             = Returns [here (Invoke [v_int 7; v_int 8]); here (Return v)] v)
  /\
  (evaluate left_to_right (Variable_ 2 "y") [v_int 7] = BuildFailure /\
   evaluate left_to_right (Variable_ 2 "y") [v_int 7] <> Undefined).
Proof.
  split.
  - apply (Variable_returns_Nth_argument left_to_right 2 "y" [v_int 7; v_int 8]).
    simpl. lia.
  - apply (Variable_returns_Nth_argument left_to_right 2 "y" [v_int 7]).
    simpl. lia.
Defined.

(** ** The nested sum of [example/expression.cc] *)

(** C1, as the code behaves: [(x + y) + (x - y)] evaluated with 10 and
    -5 returns 20, whatever order the compiler gives to the operands
    and whatever the variables are called. *)
Theorem sum2_returns_20 (order : schedule) (name1 name2 : string) :
  admissible order ->
  returned (evaluate order (sum2 (Variable_ 1 name1) (Variable_ 2 name2))
                     [v_int 10; v_int (-5)])
  = Some (v_int 20).
Proof.
  intros Hadm. rewrite returned_evaluate.
  rewrite (run_value_schedule order left_to_right _ _ Hadm admissible_left_to_right).
  reflexivity.
Qed.

Lemma sum2_returns_20_witness :
  returned (evaluate right_to_left (sum2 (Variable_ 1 "_1") (Variable_ 2 "_2"))
                     [v_int 10; v_int (-5)])
  = Some (v_int 20).
Proof.
  apply (sum2_returns_20 right_to_left "_1" "_2").
  exact admissible_right_to_left.
Defined.

(** C1 as stated does not hold: the evaluation does not return 10. *)
Lemma sum2_does_not_return_10 :
  returned (evaluate left_to_right (sum2 (Variable_default 1) (Variable_default 2))
                     [v_int 10; v_int (-5)])
  <> Some (v_int 10).
Proof. vm_compute. discriminate. Qed.

Lemma calls_at_app (p : list nat) (t t' : trace) :
  calls_at p (t ++ t') = calls_at p t ++ calls_at p t'.
Proof. apply flat_map_app. Qed.

Lemma child_invocations_app (t t' : trace) :
  child_invocations (t ++ t') = child_invocations t ++ child_invocations t'.
Proof. apply flat_map_app. Qed.

Lemma calls_at_inside (i j : nat) (p : list nat) (t : trace) :
  calls_at (i :: p) (inside j t) = if (j =? i)%nat then calls_at p t else [].
Proof.
  induction t as [|[q a] t IH]; simpl.
  - now destruct (j =? i)%nat.
  - unfold calls_at in *. simpl. rewrite IH.
    destruct a as [args| |]; simpl; auto.
    destruct (j =? i)%nat; simpl; auto.
Qed.

Lemma calls_at_root_inside (j : nat) (t : trace) :
  calls_at [] (inside j t) = [].
Proof.
  induction t as [|[q a] t IH]; simpl; [reflexivity|].
  unfold calls_at in *. simpl. rewrite IH.
  now destruct a.
Qed.

Lemma child_invocations_inside (j : nat) (t : trace) :
  child_invocations (inside j t) = map (fun _ => j) (calls_at [] t).
Proof.
  induction t as [|[q a] t IH]; simpl; [reflexivity|].
  unfold child_invocations, calls_at in *. simpl. rewrite IH.
  destruct a as [args| |]; destruct q; simpl; auto.
Qed.

Lemma touches_inside (i j : nat) (t : trace) :
  touches i (inside j t) -> i = j.
Proof.
  intros (p & a & Hin). unfold inside in Hin.
  apply in_map_iff in Hin. destruct Hin as ([q b] & Heq & _).
  simpl in Heq. congruence.
Qed.

Lemma sequence_calls_root (ord : list nat) (rs : list computation) (t : trace) :
  sequence ord rs = Some t -> calls_at [] t = [].
Proof.
  revert t; induction ord as [|i ord IH]; simpl; intros t H.
  - now inversion H.
  - destruct (nth_error rs i) as [[[ti vi]|]|]; try discriminate.
    destruct (sequence ord rs) as [t'|] eqn:Hs; [|discriminate].
    inversion H; subst.
    rewrite calls_at_app, calls_at_root_inside. simpl. now apply IH.
Qed.

(** An evaluation that returns was invoked once, with its arguments. *)
Lemma run_invoked_once (order : schedule) (e : expr) (A : list value)
    (t : trace) (v : value) :
  run order e A = Some (t, v) -> calls_at [] t = [A].
Proof.
  destruct e as [c|N name|Op es]; simpl.
  - intros H; now inversion H.
  - destruct (std_get N A); intros H; now inversion H.
  - destruct (Invoker Op).
    + unfold Invoker_eval.
      destruct (sequence _ _) as [t'|] eqn:Hs; [|discriminate].
      destruct (all_some _) as [tvs|]; [|discriminate].
      destruct (op_call Op _); [|discriminate].
      intros H; inversion H; subst.
      change (calls_at [] (here (Invoke A) :: ?l)) with (A :: calls_at [] l).
      rewrite calls_at_app, (sequence_calls_root _ _ _ Hs). reflexivity.
    + unfold Invoker_logical_and.
      destruct es as [|e1 [|e2 [|e3 es]]]; try discriminate.
      destruct (run order e1 A) as [[t1 r1]|]; [|discriminate].
      destruct (truthy r1) as [[|]|]; try discriminate.
      * destruct (run order e2 A) as [[t2 r2]|]; [|discriminate].
        destruct (op_call _ _); [|discriminate].
        intros H; inversion H; subst.
        change (calls_at [] (here (Invoke A) :: ?l)) with (A :: calls_at [] l).
        now rewrite !calls_at_app, !calls_at_root_inside.
      * intros H; inversion H; subst.
        change (calls_at [] (here (Invoke A) :: ?l)) with (A :: calls_at [] l).
        now rewrite !calls_at_app, !calls_at_root_inside.
    + unfold Invoker_logical_or.
      destruct es as [|e1 [|e2 [|e3 es]]]; try discriminate.
      destruct (run order e1 A) as [[t1 r1]|]; [|discriminate].
      destruct (truthy r1) as [[|]|]; try discriminate.
      * intros H; inversion H; subst.
        change (calls_at [] (here (Invoke A) :: ?l)) with (A :: calls_at [] l).
        now rewrite !calls_at_app, !calls_at_root_inside.
      * destruct (run order e2 A) as [[t2 r2]|]; [|discriminate].
        destruct (op_call _ _); [|discriminate].
        intros H; inversion H; subst.
        change (calls_at [] (here (Invoke A) :: ?l)) with (A :: calls_at [] l).
        now rewrite !calls_at_app, !calls_at_root_inside.
Qed.

(** ** The primary invoker *)

Lemma flat_map_indicator_seq {X : Type} (x : X) (i s k : nat) :
  flat_map (fun j => if (j =? i)%nat then [x] else []) (seq s k)
  = if ((s <=? i) && (i <? s + k))%nat then [x] else [].
Proof.
  revert s; induction k as [|k IH]; intros s.
  - simpl.
    destruct (Nat.leb_spec s i), (Nat.ltb_spec i (s + 0));
      simpl; auto; lia.
  - cbn [seq flat_map]. rewrite IH.
    destruct (Nat.eqb_spec s i), (Nat.leb_spec (S s) i), (Nat.leb_spec s i),
             (Nat.ltb_spec i (S s + k)), (Nat.ltb_spec i (s + S k));
      simpl; auto; lia.
Qed.

Section children.
Variable A : list value.
Variable tvs : list (trace * value).
Hypothesis invoked_once : Forall (fun tv => calls_at [] (fst tv) = [A]) tvs.

Lemma child_events_invocation (j : nat) :
  (j < List.length tvs)%nat ->
  child_invocations (child_events tvs j) = [j].
Proof.
  intros Hj. unfold child_events.
  destruct (nth_error tvs j) as [[t v]|] eqn:E.
  - rewrite child_invocations_inside.
    apply nth_error_In in E.
    rewrite Forall_forall in invoked_once.
    pose proof (invoked_once _ E) as Hone. simpl in Hone.
    now rewrite Hone.
  - apply nth_error_None in E. lia.
Qed.

Lemma child_events_calls (i j : nat) :
  (j < List.length tvs)%nat ->
  calls_at [i] (child_events tvs j) = if (j =? i)%nat then [A] else [].
Proof.
  intros Hj. unfold child_events.
  destruct (nth_error tvs j) as [[t v]|] eqn:E.
  - rewrite calls_at_inside.
    apply nth_error_In in E.
    rewrite Forall_forall in invoked_once.
    pose proof (invoked_once _ E) as Hone. simpl in Hone.
    now rewrite Hone.
  - apply nth_error_None in E. lia.
Qed.

Lemma children_invocations (ord : list nat) :
  Forall (fun j => (j < List.length tvs)%nat) ord ->
  child_invocations (flat_map (child_events tvs) ord) = ord.
Proof.
  induction 1 as [|j ord Hj _ IH]; simpl; [reflexivity|].
  now rewrite child_invocations_app, child_events_invocation, IH.
Qed.

Lemma children_calls (i : nat) (ord : list nat) :
  Forall (fun j => (j < List.length tvs)%nat) ord ->
  calls_at [i] (flat_map (child_events tvs) ord)
  = flat_map (fun j => if (j =? i)%nat then [A] else []) ord.
Proof.
  induction 1 as [|j ord Hj _ IH]; simpl; [reflexivity|].
  now rewrite calls_at_app, child_events_calls, IH.
Qed.

Lemma children_called_once (order : schedule) (i : nat) :
  admissible order ->
  (i < List.length tvs)%nat ->
  calls_at [i] (flat_map (child_events tvs) (order (List.length tvs))) = [A].
Proof.
  intros Hadm Hi.
  rewrite children_calls by now apply admissible_bound.
  pose proof (Permutation_flat_map
                (fun j => if (j =? i)%nat then [A] else [])
                (Hadm (List.length tvs))) as HP.
  rewrite flat_map_indicator_seq in HP.
  replace ((0 <=? i) && (i <? 0 + List.length tvs))%nat with true in HP.
  - now apply Permutation_sym, Permutation_length_1_inv in HP.
  - symmetry. apply andb_true_iff. split.
    + apply Nat.leb_le; lia.
    + apply Nat.ltb_lt; lia.
Qed.
End children.

Lemma children_return (order : schedule) (es : list expr) (A : list value)
    (tvs : list (trace * value)) :
  Forall2 (fun c tv => evaluate order c A = Returns (fst tv) (snd tv)) es tvs ->
  all_some (map (fun c => run order c A) es) = Some tvs
  /\ Forall (fun tv => calls_at [] (fst tv) = [A]) tvs
  /\ List.length tvs = List.length es.
Proof.
  intros H.
  assert (Forall2 (fun c tv => run order c A = Some tv) es tvs) as Hrun.
  { induction H as [|c [t v] es tvs Hc _ IH]; constructor; auto.
    now apply evaluate_Returns in Hc. }
  split; [|split].
  - now apply (all_some_Forall2 (fun c => run order c A)).
  - clear H. induction Hrun as [|c [t v] es tvs Hc _ IH]; constructor; auto.
    simpl. eapply run_invoked_once; eauto.
  - symmetry. eapply Forall2_length; eauto.
Qed.

(** X17: for a compound whose operation is neither
    logical AND nor logical OR, once its evaluation with [A] builds,
    every child is invoked exactly once, with [A] itself; the children
    run one after the other (each child's events form one block of the
    trace) in the order the compiler chose for the operands of the
    call, which need not be left to right; only after the last child
    has returned is the operation called, on the children's results
    taken by position, and its result is what the compound returns. *)
Theorem primary_invoker_evaluates_every_child (order : schedule)
    (Op : operation) (es : list expr) (A : list value)
    (tvs : list (trace * value)) (v : value) :
  admissible order ->
  Invoker Op = primary_template ->
  builds (Compound Op es) A = true ->
  Forall2 (fun c tv => evaluate order c A = Returns (fst tv) (snd tv)) es tvs ->
  op_call Op (map snd tvs) = Some v ->
  exists t,
    evaluate order (Compound Op es) A = Returns t v
    /\ t = here (Invoke A)
             :: flat_map (child_events tvs) (order (List.length es))
             ++ [here (Apply (map snd tvs)); here (Return v)]
    /\ child_invocations t = order (List.length es)
    /\ (forall i, (i < List.length es)%nat -> calls_at [i] t = [A]).
Proof.
  intros Hadm Hprim Hbuilds Hchildren Hop.
  destruct (children_return _ _ _ _ Hchildren) as (Hall & Honce & Hlen).
  eexists. split; [|split; [reflexivity|split]].
  - apply evaluate_Returns. split; [exact Hbuilds|].
    simpl. rewrite Hprim.
    rewrite (Invoker_eval_returns _ _ _ _ _ _ Hadm Hall), Hop. reflexivity.
  - change (child_invocations (here (Invoke A) :: ?l))
      with (child_invocations l).
    rewrite child_invocations_app. simpl. rewrite app_nil_r.
    apply (children_invocations A); [exact Honce|].
    rewrite Hlen. now apply admissible_bound.
  - intros i Hi.
    change (calls_at [i] (here (Invoke A) :: ?l)) with (calls_at [i] l).
    rewrite calls_at_app. simpl. rewrite app_nil_r.
    rewrite <- Hlen. apply children_called_once; auto. lia.
Qed.

Lemma primary_invoker_evaluates_every_child_witness :
  exists t,
    evaluate right_to_left
             (Compound std_minus [Variable_ 1 "x"; Constant (v_int 2)])
             [v_int 9]
    = Returns t (v_int 7)
    /\ t = here (Invoke [v_int 9])
             :: flat_map
                  (child_events
                     [([here (Invoke [v_int 9]); here (Return (v_int 9))], v_int 9);
                      ([here (Invoke [v_int 9]); here (Return (v_int 2))], v_int 2)])
                  (right_to_left 2%nat)
             ++ [here (Apply [v_int 9; v_int 2]); here (Return (v_int 7))]
    /\ child_invocations t = right_to_left 2%nat
    /\ (forall i, (i < 2)%nat -> calls_at [i] t = [[v_int 9]]).
Proof.
  apply (primary_invoker_evaluates_every_child right_to_left std_minus
           [Variable_ 1 "x"; Constant (v_int 2)] [v_int 9]
           [([here (Invoke [v_int 9]); here (Return (v_int 9))], v_int 9);
            ([here (Invoke [v_int 9]); here (Return (v_int 2))], v_int 2)]
           (v_int 7)).
  - exact admissible_right_to_left.
  - reflexivity.
  - reflexivity.
  - repeat constructor.
  - reflexivity.
Defined.

(** C2: the documentation of the library ([ctaeb.h]: "the first
    sub-expression is evaluated, then the second one, and then two
    sub-results are summed") and the claim ask for the children to be
    evaluated from the first to the last; the two short-circuit
    invokers and [print::print] do keep that order.  [Invoker::eval]
    does not: under the right-to-left order of the operands of a call,
    [x + y] invokes [y], which returns, before it invokes [x]. *)
Lemma right_to_left_invokes_last_child_first :
  evaluate right_to_left
           (operator_plus (Variable_ 1 "x") (Variable_ 2 "y"))
           [v_int 3; v_int 4]
  = Returns [ ([], Invoke [v_int 3; v_int 4]);
              ([1%nat], Invoke [v_int 3; v_int 4]);
              ([1%nat], Return (v_int 4));
              ([0%nat], Invoke [v_int 3; v_int 4]);
              ([0%nat], Return (v_int 3));
              ([], Apply [v_int 3; v_int 4]);
              ([], Return (v_int 7)) ]
            (v_int 7)
  /\ ~ children_invoked_left_to_right.
Proof.
  split; [reflexivity|].
  intros H.
  specialize (H right_to_left std_plus [Variable_ 1 "x"; Variable_ 2 "y"]
                [v_int 3; v_int 4] _ _
                admissible_right_to_left eq_refl eq_refl).
  vm_compute in H. discriminate.
Qed.

(** ** The short-circuit invokers *)

Lemma short_circuit_untouched (A : list value) (t1 : trace) (v : value) :
  ~ touches 1 (here (Invoke A) :: inside 0 t1 ++ [here (Return v)]).
Proof.
  intros (p & a & [Hin|Hin]); [discriminate|].
  apply in_app_or in Hin. destruct Hin as [Hin|[Hin|[]]].
  - assert (touches 1 (inside 0 t1)) as Ht by (exists p, a; exact Hin).
    apply touches_inside in Ht. discriminate.
  - discriminate.
Qed.

Lemma both_children_called (A : list value) (t1 t2 : trace) (tail : trace) :
  calls_at [] t2 = [A] ->
  calls_at [1%nat] tail = [] ->
  calls_at [1%nat] (here (Invoke A) :: inside 0 t1 ++ inside 1 t2 ++ tail) = [A].
Proof.
  intros H2 Htail.
  change (calls_at [1%nat] (here (Invoke A) :: ?l)) with (calls_at [1%nat] l).
  rewrite !calls_at_app, !calls_at_inside, Htail, H2. reflexivity.
Qed.

(** C3: a logical-AND compound over two children whose evaluation with
    [A] builds.  If the first child returns a falsy value, the compound
    returns [false] and nothing of the second child is run; otherwise
    the second child is invoked with [A], after the first has returned,
    and the compound returns the conjunction of the two results. *)
Theorem logical_and_short_circuits (order : schedule) (c1 c2 : expr)
    (A : list value) (t1 : trace) (r1 : value) (b1 : bool) :
  builds (Compound std_logical_and [c1; c2]) A = true ->
  evaluate order c1 A = Returns t1 r1 ->
  truthy r1 = Some b1 ->
  (b1 = false ->
   exists t,
     evaluate order (Compound std_logical_and [c1; c2]) A
     = Returns t (v_bool false)
     /\ t = here (Invoke A) :: inside 0 t1 ++ [here (Return (v_bool false))]
     /\ ~ touches 1 t)
  /\
  (b1 = true ->
   forall (t2 : trace) (r2 : value) (b2 : bool),
     evaluate order c2 A = Returns t2 r2 ->
     truthy r2 = Some b2 ->
     exists t,
       evaluate order (Compound std_logical_and [c1; c2]) A
       = Returns t (v_bool (b1 && b2))
       /\ t = here (Invoke A) :: inside 0 t1 ++ inside 1 t2
                ++ [here (Apply [r1; r2]); here (Return (v_bool (b1 && b2)))]
       /\ calls_at [1%nat] t = [A]).
Proof.
  intros Hbuilds H1 Hb1.
  apply evaluate_Returns in H1. destruct H1 as [_ H1].
  split.
  - intros ->. eexists. split; [|split; [reflexivity|]].
    + apply evaluate_Returns. split; [exact Hbuilds|].
      simpl. now rewrite H1, Hb1.
    + apply short_circuit_untouched.
  - intros -> t2 r2 b2 H2 Hb2.
    apply evaluate_Returns in H2. destruct H2 as [_ H2].
    eexists. split; [|split; [reflexivity|]].
    + apply evaluate_Returns. split; [exact Hbuilds|].
      simpl. rewrite H1, Hb1, H2. simpl. now rewrite ?Hb1, ?Hb2.
    + apply both_children_called; [|reflexivity].
      eapply run_invoked_once; eauto.
Qed.

Lemma logical_and_short_circuits_witness :
  (exists t,
     evaluate left_to_right
              (Compound std_logical_and [Variable_ 1 "x"; Variable_ 2 "y"])
              [v_int 0; v_int 7]
     = Returns t (v_bool false)
     /\ t = here (Invoke [v_int 0; v_int 7])
              :: inside 0 [here (Invoke [v_int 0; v_int 7]); here (Return (v_int 0))]
              ++ [here (Return (v_bool false))]
     /\ ~ touches 1 t)
  /\
  (exists t,
     evaluate left_to_right
              (Compound std_logical_and [Variable_ 1 "x"; Variable_ 2 "y"])
              [v_int 3; v_int 0]
     = Returns t (v_bool (true && false))
     /\ t = here (Invoke [v_int 3; v_int 0])
              :: inside 0 [here (Invoke [v_int 3; v_int 0]); here (Return (v_int 3))]
              ++ inside 1 [here (Invoke [v_int 3; v_int 0]); here (Return (v_int 0))]
              ++ [here (Apply [v_int 3; v_int 0]);
                  here (Return (v_bool (true && false)))]
     /\ calls_at [1%nat] t = [[v_int 3; v_int 0]]).
Proof.
  split.
  - apply (proj1 (logical_and_short_circuits left_to_right
                    (Variable_ 1 "x") (Variable_ 2 "y") [v_int 0; v_int 7]
                    [here (Invoke [v_int 0; v_int 7]); here (Return (v_int 0))]
                    (v_int 0) false eq_refl eq_refl eq_refl)).
    reflexivity.
  - apply (proj2 (logical_and_short_circuits left_to_right
                    (Variable_ 1 "x") (Variable_ 2 "y") [v_int 3; v_int 0]
                    [here (Invoke [v_int 3; v_int 0]); here (Return (v_int 3))]
                    (v_int 3) true eq_refl eq_refl eq_refl) eq_refl).
    + reflexivity.
    + reflexivity.
Defined.

(** C4: a logical-OR compound over two children whose evaluation with
    [A] builds.  If the first child returns a truthy value, the
    compound returns [true] and nothing of the second child is run;
    otherwise the second child is invoked with [A], after the first has
    returned, and the compound returns the disjunction of the two
    results. *)
Theorem logical_or_short_circuits (order : schedule) (c1 c2 : expr)
    (A : list value) (t1 : trace) (r1 : value) (b1 : bool) :
  builds (Compound std_logical_or [c1; c2]) A = true ->
  evaluate order c1 A = Returns t1 r1 ->
  truthy r1 = Some b1 ->
  (b1 = true ->
   exists t,
     evaluate order (Compound std_logical_or [c1; c2]) A
     = Returns t (v_bool true)
     /\ t = here (Invoke A) :: inside 0 t1 ++ [here (Return (v_bool true))]
     /\ ~ touches 1 t)
  /\
  (b1 = false ->
   forall (t2 : trace) (r2 : value) (b2 : bool),
     evaluate order c2 A = Returns t2 r2 ->
     truthy r2 = Some b2 ->
     exists t,
       evaluate order (Compound std_logical_or [c1; c2]) A
       = Returns t (v_bool (b1 || b2))
       /\ t = here (Invoke A) :: inside 0 t1 ++ inside 1 t2
                ++ [here (Apply [r1; r2]); here (Return (v_bool (b1 || b2)))]
       /\ calls_at [1%nat] t = [A]).
Proof.
  intros Hbuilds H1 Hb1.
  apply evaluate_Returns in H1. destruct H1 as [_ H1].
  split.
  - intros ->. eexists. split; [|split; [reflexivity|]].
    + apply evaluate_Returns. split; [exact Hbuilds|].
      simpl. now rewrite H1, Hb1.
    + apply short_circuit_untouched.
  - intros -> t2 r2 b2 H2 Hb2.
    apply evaluate_Returns in H2. destruct H2 as [_ H2].
    eexists. split; [|split; [reflexivity|]].
    + apply evaluate_Returns. split; [exact Hbuilds|].
      simpl. rewrite H1, Hb1, H2. simpl. now rewrite ?Hb1, ?Hb2.
    + apply both_children_called; [|reflexivity].
      eapply run_invoked_once; eauto.
Qed.

Lemma logical_or_short_circuits_witness :
  (exists t,
     evaluate left_to_right
              (Compound std_logical_or [Variable_ 1 "x"; Variable_ 2 "y"])
              [v_int 5; v_int 0]
     = Returns t (v_bool true)
     /\ t = here (Invoke [v_int 5; v_int 0])
              :: inside 0 [here (Invoke [v_int 5; v_int 0]); here (Return (v_int 5))]
              ++ [here (Return (v_bool true))]
     /\ ~ touches 1 t)
  /\
  (exists t,
     evaluate left_to_right
              (Compound std_logical_or [Variable_ 1 "x"; Variable_ 2 "y"])
              [v_int 0; v_int 6]
     = Returns t (v_bool (false || true))
     /\ t = here (Invoke [v_int 0; v_int 6])
              :: inside 0 [here (Invoke [v_int 0; v_int 6]); here (Return (v_int 0))]
              ++ inside 1 [here (Invoke [v_int 0; v_int 6]); here (Return (v_int 6))]
              ++ [here (Apply [v_int 0; v_int 6]);
                  here (Return (v_bool (false || true)))]
     /\ calls_at [1%nat] t = [[v_int 0; v_int 6]]).
Proof.
  split.
  - apply (proj1 (logical_or_short_circuits left_to_right
                    (Variable_ 1 "x") (Variable_ 2 "y") [v_int 5; v_int 0]
                    [here (Invoke [v_int 5; v_int 0]); here (Return (v_int 5))]
                    (v_int 5) true eq_refl eq_refl eq_refl)).
    reflexivity.
  - apply (proj2 (logical_or_short_circuits left_to_right
                    (Variable_ 1 "x") (Variable_ 2 "y") [v_int 0; v_int 6]
                    [here (Invoke [v_int 0; v_int 6]); here (Return (v_int 0))]
                    (v_int 0) false eq_refl eq_refl eq_refl) eq_refl).
    + reflexivity.
    + reflexivity.
Defined.

(** C10: a logical-AND or logical-OR compound over two children has
    type [bool] whenever its evaluation builds, and every value it
    returns is a [bool], also when the children return [int]s; a
    compound under the default rule returns what its operation
    returns, an [int] for the sum of two [int]s. *)
Theorem logical_compound_returns_bool (order : schedule) (Op : operation)
    (c1 c2 : expr) (A : list value) :
  Op = std_logical_and \/ Op = std_logical_or ->
  (forall T, result_type (Compound Op [c1; c2]) (map type_of A) = Some T ->
             T = t_bool)
  /\ (forall t v, evaluate order (Compound Op [c1; c2]) A = Returns t v ->
                  type_of v = t_bool)
  /\ returned (evaluate left_to_right
                        (Compound Op [Constant (v_int 3); Constant (v_int 4)]) A)
     = Some (v_bool true)
  /\ returned (evaluate left_to_right
                        (Compound std_plus [Constant (v_int 3); Constant (v_int 4)]) A)
     = Some (v_int 7).
Proof.
  intros HOp. split; [|split; [|split]].
  - intros T. destruct HOp; subst Op; simpl;
      destruct (result_type c1 _) as [[| |]|]; try discriminate;
      destruct (result_type c2 _) as [[| |]|]; simpl; try discriminate;
      intros H; now inversion H.
  - intros t v H. apply evaluate_Returns in H. destruct H as [_ H].
    destruct HOp; subst Op; simpl in H;
      destruct (run order c1 A) as [[t1 r1]|]; try discriminate;
      destruct (truthy r1) as [[|]|]; try discriminate;
      try (inversion H; reflexivity);
      destruct (run order c2 A) as [[t2 r2]|]; try discriminate;
      destruct (truthy r2) as [b2|]; try discriminate;
      inversion H; reflexivity.
  - destruct HOp; subst Op; reflexivity.
  - reflexivity.
Qed.

Lemma logical_compound_returns_bool_witness :
  (forall T,
      result_type (Compound std_logical_and [Variable_ 1 "x"; Variable_ 2 "y"])
                  (map type_of [v_int 3; v_int 7]) = Some T ->
      T = t_bool)
  /\ type_of (v_bool true) = t_bool.
Proof.
  pose proof (logical_compound_returns_bool left_to_right std_logical_and
                (Variable_ 1 "x") (Variable_ 2 "y") [v_int 3; v_int 7]
                (or_introl eq_refl)) as (Hstatic & Hdynamic & _).
  split; [exact Hstatic|].
  apply (Hdynamic
           [ ([], Invoke [v_int 3; v_int 7]);
             ([0%nat], Invoke [v_int 3; v_int 7]); ([0%nat], Return (v_int 3));
             ([1%nat], Invoke [v_int 3; v_int 7]); ([1%nat], Return (v_int 7));
             ([], Apply [v_int 3; v_int 7]); ([], Return (v_bool true)) ]
           (v_bool true)).
  reflexivity.
Defined.

(** ** Printing *)

Lemma stream_Compound (os : ostream) (Op : operation) (es : list expr) :
  stream os (Compound Op es) =
  match to_string_op Op with
  | None => None
  | Some op =>
      match es with
      | [x] =>
          if prefixed Op then
            match stream (put (put os op) "(") x with
            | Some os' => Some (put os' ")")
            | None => None
            end
          else stream (put os op) x
      | [x1; x2] =>
          if prefixed Op then
            match print_tuple (List.length es) 0 (put (put os op) "(") es with
            | Some os' => Some (put os' ")")
            | None => None
            end
          else
            match stream os x1 with
            | Some os' => stream (put (put (put os' " ") op) " ") x2
            | None => None
            end
      | _ =>
          match print_tuple (List.length es) 0 (put (put os op) "(") es with
          | Some os' => Some (put os' ")")
          | None => None
          end
      end
  end.
Proof.
  assert (forall size I os' l,
             (fix print (I : nat) (os : ostream) (tuple : list expr)
                : option ostream :=
                match tuple with
                | [] => Some os
                | x :: rest =>
                    match stream os x with
                    | Some os' =>
                        print (S I) (emit_separator os' (size <=? I + 1)%nat) rest
                    | None => None
                    end
                end) I os' l
             = print_tuple size I os' l) as Hprint.
  { intros size I os' l. revert I os'.
    induction l as [|x l IH]; intros I os'; simpl; [reflexivity|].
    destruct (stream os' x); [apply IH|reflexivity]. }
  destruct es as [|x1 [|x2 [|x3 es]]]; simpl;
    destruct (to_string_op Op) as [op|]; try reflexivity.
  destruct (stream _ x1) as [o1|]; [|reflexivity].
  destruct (stream _ x2) as [o2|]; [|reflexivity].
  destruct (stream _ x3) as [o3|]; [|reflexivity].
  rewrite <- Hprint. reflexivity.
Qed.

Lemma append_assoc (a b c : string) :
  String.append (String.append a b) c = String.append a (String.append b c).
Proof. induction a as [|ch a IH]; simpl; [reflexivity|]. now rewrite IH. Qed.

Lemma append_empty_r (a : string) : String.append a EmptyString = a.
Proof. induction a as [|ch a IH]; simpl; [reflexivity|]. now rewrite IH. Qed.

Lemma put_value_put (os : ostream) (v : value) :
  put_value os v = put os (put_value EmptyString v).
Proof. destruct v; reflexivity. Qed.

Lemma print_tuple_put (size : nat) (tuple : list expr) :
  Forall (fun e => forall os, stream os e = onto os (stream EmptyString e)) tuple ->
  forall I os, print_tuple size I os tuple
               = onto os (print_tuple size I EmptyString tuple).
Proof.
  induction 1 as [|x rest Hx _ IH]; intros I os; simpl.
  - unfold put. now rewrite append_empty_r.
  - rewrite (Hx os). destruct (stream EmptyString x) as [r|]; simpl; [|reflexivity].
    rewrite (IH (S I) (emit_separator (put os r) _)).
    rewrite (IH (S I) (emit_separator r _)).
    destruct (print_tuple size (S I) EmptyString rest) as [r'|]; simpl; [|reflexivity].
    unfold emit_separator, put.
    destruct (size <=? I + 1)%nat; simpl; now rewrite ?append_assoc.
Qed.

(** Streaming onto [os] appends to [os] what streaming onto an empty
    stream produces. *)
Lemma stream_put (e : expr) (os : ostream) :
  stream os e = onto os (to_string e).
Proof.
  unfold to_string. revert os.
  induction e as [v|N name|Op es IH] using expr_nested_ind; intros os.
  - simpl. now rewrite put_value_put.
  - reflexivity.
  - rewrite !stream_Compound.
    destruct (to_string_op Op) as [op|]; [|reflexivity].
    pose proof (print_tuple_put (List.length es) es IH 0%nat) as Hprint.
    assert (match print_tuple (List.length es) 0 (put (put os op) "(") es with
            | Some os' => Some (put os' ")")
            | None => None
            end
            = onto os
                (match print_tuple (List.length es) 0 (put (put EmptyString op) "(") es with
                 | Some os' => Some (put os' ")")
                 | None => None
                 end)) as Hgeneric.
    { rewrite (Hprint (put (put os op) "(")), (Hprint (put (put EmptyString op) "(")).
      destruct (print_tuple _ _ EmptyString es) as [r|]; simpl; [|reflexivity].
      unfold put. simpl. now rewrite !append_assoc. }
    destruct es as [|x1 [|x2 [|x3 es]]]; try exact Hgeneric.
    + inversion IH as [|? ? H1 _]; subst.
      destruct (prefixed Op).
      * rewrite (H1 (put (put os op) "(")), (H1 (put (put EmptyString op) "(")).
        destruct (stream EmptyString x1) as [r|]; simpl; [|reflexivity].
        unfold put. simpl. now rewrite !append_assoc.
      * rewrite (H1 (put os op)), (H1 (put EmptyString op)).
        destruct (stream EmptyString x1) as [r|]; simpl; [|reflexivity].
        unfold put. simpl. now rewrite !append_assoc.
    + destruct (prefixed Op); [exact Hgeneric|].
      inversion IH as [|? ? H1 IH']; subst.
      inversion IH' as [|? ? H2 _]; subst.
      rewrite (H1 os).
      destruct (stream EmptyString x1) as [r1|]; simpl; [|reflexivity].
      rewrite (H2 (put (put (put (put os r1) " ") op) " ")).
      rewrite (H2 (put (put (put r1 " ") op) " ")).
      destruct (stream EmptyString x2) as [r2|]; simpl; [|reflexivity].
      unfold put. simpl. now rewrite !append_assoc.
Qed.

(** C7: a compound over two children prints, when its operation has a
    [prefixed] member, as the symbol, an opening parenthesis, the two
    children separated by a comma and a space, and a closing
    parenthesis; otherwise as the first child, a space, the symbol, a
    space and the second child.  The sum of the variables named [x]
    and [y] prints as [x + y]. *)
Theorem binary_compound_rendering (Op : operation) (c1 c2 : expr)
    (op r1 r2 : string) :
  to_string_op Op = Some op ->
  to_string c1 = Some r1 ->
  to_string c2 = Some r2 ->
  to_string (Compound Op [c1; c2])
  = Some (if prefixed Op
          then (op ++ "(" ++ r1 ++ ", " ++ r2 ++ ")")%string
          else (r1 ++ " " ++ op ++ " " ++ r2)%string)
  /\ to_string (operator_plus (Variable_ 1 "x") (Variable_ 2 "y"))
     = Some "x + y".
Proof.
  intros Hop H1 H2. split; [|reflexivity].
  unfold to_string at 1. rewrite stream_Compound, Hop.
  destruct (prefixed Op).
  - cbn [print_tuple List.length].
    rewrite stream_put, H1. cbn [onto option_map].
    rewrite stream_put, H2. cbn [onto option_map].
    unfold emit_separator, put. simpl. now rewrite !append_assoc.
  - rewrite stream_put, H1. cbn [onto option_map].
    rewrite stream_put, H2. cbn [onto option_map].
    unfold put. simpl. now rewrite !append_assoc.
Qed.

Lemma binary_compound_rendering_witness :
  to_string (Compound (user CustomOperator) [Variable_ 1 "x"; Variable_ 2 "y"])
  = Some (if prefixed (user CustomOperator)
          then ("?:" ++ "(" ++ "x" ++ ", " ++ "y" ++ ")")%string
          else ("x" ++ " " ++ "?:" ++ " " ++ "y")%string)
  /\ to_string (operator_plus (Variable_ 1 "x") (Variable_ 2 "y"))
     = Some "x + y".
Proof.
  apply (binary_compound_rendering (user CustomOperator)
           (Variable_ 1 "x") (Variable_ 2 "y") "?:" "x" "y");
    reflexivity.
Defined.

(** C8: a compound over one child prints, when its operation has a
    [prefixed] member, as the symbol followed by the child in
    parentheses; otherwise as the symbol immediately followed by the
    child.  The negation of the variable named [x] prints as [-x]; a
    logical negation prints as [not ] followed by its operand. *)
Theorem unary_compound_rendering (Op : operation) (c : expr) (op r : string) :
  to_string_op Op = Some op ->
  to_string c = Some r ->
  to_string (Compound Op [c])
  = Some (if prefixed Op
          then (op ++ "(" ++ r ++ ")")%string
          else (op ++ r)%string)
  /\ (forall N, to_string (operator_negate (Variable_ N "x")) = Some "-x")
  /\ to_string (operator_logical_not c) = Some ("not " ++ r)%string.
Proof.
  intros Hop Hc.
  assert (forall Op' op',
             to_string_op Op' = Some op' ->
             to_string (Compound Op' [c])
             = Some (if prefixed Op'
                     then (op' ++ "(" ++ r ++ ")")%string
                     else (op' ++ r)%string)) as Hgeneral.
  { intros Op' op' Hop'.
    unfold to_string at 1. rewrite stream_Compound, Hop'.
    destruct (prefixed Op').
    - rewrite stream_put, Hc. cbn [onto option_map].
      unfold put. simpl. now rewrite !append_assoc.
    - rewrite stream_put, Hc. reflexivity. }
  split; [now apply Hgeneral|split; [reflexivity|]].
  apply (Hgeneral std_logical_not "not "). reflexivity.
Qed.

Lemma unary_compound_rendering_witness :
  to_string (Compound (user CustomOperator) [Constant (v_int 5)])
  = Some (if prefixed (user CustomOperator)
          then ("?:" ++ "(" ++ "5" ++ ")")%string
          else ("?:" ++ "5")%string)
  /\ (forall N, to_string (operator_negate (Variable_ N "x")) = Some "-x")
  /\ to_string (operator_logical_not (Constant (v_int 5)))
     = Some ("not " ++ "5")%string.
Proof.
  apply (unary_compound_rendering (user CustomOperator)
           (Constant (v_int 5)) "?:" "5");
    reflexivity.
Defined.

(** * Further properties of the evaluator *)

Lemma all_some_None_in {X : Type} (l : list (option X)) :
  In None l -> all_some l = None.
Proof.
  induction l as [|[x|] l IH]; simpl; intros H.
  - contradiction.
  - destruct H as [H|H]; [discriminate|]. now rewrite IH.
  - reflexivity.
Qed.

Lemma evaluate_Undefined (order : schedule) (e : expr) (A : list value) :
  evaluate order e A = Undefined <->
  builds e A = true /\ run order e A = None.
Proof.
  unfold evaluate. destruct (builds e A).
  - destruct (run order e A) as [[t v]|]; split;
      try discriminate; auto.
    intros [_ H]; discriminate.
  - split; [discriminate|]. intros [H _]; discriminate.
Qed.

Lemma evaluate_BuildFailure (order : schedule) (e : expr) (A : list value) :
  evaluate order e A = BuildFailure <-> result_type e (map type_of A) = None.
Proof.
  unfold evaluate, builds.
  destruct (result_type e (map type_of A)) as [T|]; split;
    try discriminate; auto.
  now destruct (run order e A) as [[t v]|].
Qed.

(** The children of a compound that builds all build. *)
Lemma children_build (Op : operation) (es : list expr) (Ts : list ctype)
    (T : ctype) :
  result_type (Compound Op es) Ts = Some T ->
  Forall (fun c => exists Tc, result_type c Ts = Some Tc) es.
Proof.
  simpl. destruct (Invoker Op).
  - destruct (all_some _) as [Rs|] eqn:Hall; [|discriminate]. intros _.
    apply (all_some_Forall2 (fun c => result_type c Ts)) in Hall.
    induction Hall; constructor; eauto.
  - destruct es as [|e1 [|e2 [|e3 es]]]; simpl; try discriminate;
      try (destruct (result_type e1 Ts); discriminate);
      destruct (result_type e1 Ts) as [T1|] eqn:H1; try discriminate;
      destruct (result_type e2 Ts) as [T2|] eqn:H2; try discriminate.
    intros _. repeat constructor; eauto.
  - destruct es as [|e1 [|e2 [|e3 es]]]; simpl; try discriminate;
      try (destruct (result_type e1 Ts); discriminate);
      destruct (result_type e1 Ts) as [T1|] eqn:H1; try discriminate;
      destruct (result_type e2 Ts) as [T2|] eqn:H2; try discriminate.
    intros _. repeat constructor; eauto.
Qed.

Lemma indices_in_range (e : expr) (Ts : list ctype) (T : ctype) :
  result_type e Ts = Some T ->
  Forall (fun N => (1 <= N <= List.length Ts)%nat) (indices e).
Proof.
  revert T.
  induction e as [v|N name|Op es IH] using expr_nested_ind; intros T HT.
  - constructor.
  - simpl in *. destruct N as [|n]; [discriminate|]. simpl in HT.
    constructor; [|constructor].
    assert (n < List.length Ts)%nat; [|lia].
    apply nth_error_Some. congruence.
  - apply children_build in HT. simpl.
    apply Forall_flat_map.
    rewrite Forall_forall in *. intros c Hc.
    destruct (HT c Hc) as [Tc HTc]. eapply IH; eauto.
Qed.

(** X1: an evaluation builds only if every variable of the expression,
    wherever it occurs, has an argument: a variable of index 0, or of
    an index beyond the number of arguments, makes the whole evaluation
    fail to build, also when it sits in an operand that a short-circuit
    would skip. *)
Theorem missing_argument_fails_to_build (order : schedule) (e : expr)
    (A : list value) (N : nat) :
  In N (indices e) ->
  (N = 0 \/ List.length A < N)%nat ->
  evaluate order e A = BuildFailure.
Proof.
  intros Hin HN. apply evaluate_BuildFailure.
  destruct (result_type e (map type_of A)) as [T|] eqn:HT; [|reflexivity].
  apply indices_in_range in HT. rewrite Forall_forall in HT.
  specialize (HT N Hin). rewrite length_map in HT. lia.
Qed.

Lemma missing_argument_fails_to_build_witness :
  evaluate left_to_right
           (operator_logical_and (Constant (v_bool false)) (Variable_ 2 "y"))
           [v_int 1]
  = BuildFailure.
Proof.
  apply (missing_argument_fails_to_build left_to_right _ [v_int 1] 2).
  - simpl. auto.
  - simpl. lia.
Defined.

(** ** Arguments beyond the largest index *)

Lemma std_get_app {X : Type} (N : nat) (pack more : list X) (x : X) :
  std_get N pack = Some x -> std_get N (pack ++ more) = Some x.
Proof.
  destruct N as [|n]; simpl; [discriminate|]. intros H.
  rewrite nth_error_app1; [exact H|].
  apply nth_error_Some. congruence.
Qed.

Lemma std_get_map {X Y : Type} (f : X -> Y) (N : nat) (pack : list X) :
  std_get N (map f pack) = option_map f (std_get N pack).
Proof. destruct N as [|n]; [reflexivity|]. simpl. apply nth_error_map. Qed.

Lemma map_ext_Forall {X Y : Type} (f g : X -> Y) (l : list X) :
  Forall (fun x => f x = g x) l -> map f l = map g l.
Proof. induction 1; simpl; congruence. Qed.

Lemma result_type_app (e : expr) (Ts Us : list ctype) (T : ctype) :
  result_type e Ts = Some T -> result_type e (Ts ++ Us) = Some T.
Proof.
  revert T.
  induction e as [v|N name|Op es IH] using expr_nested_ind; intros T HT.
  - exact HT.
  - simpl in *. now apply std_get_app.
  - pose proof (children_build _ _ _ _ HT) as Hch.
    assert (map (fun c => result_type c (Ts ++ Us)) es
            = map (fun c => result_type c Ts) es) as Hmap.
    { apply map_ext_Forall. rewrite Forall_forall in *.
      intros c Hc. destruct (Hch c Hc) as [Tc HTc].
      rewrite HTc. eapply IH; eauto. }
    simpl in *. now rewrite Hmap.
Qed.

Lemma run_value_app (order : schedule) (e : expr) (A B : list value)
    (T : ctype) :
  admissible order ->
  result_type e (map type_of A) = Some T ->
  value_of (run order e (A ++ B)) = value_of (run order e A).
Proof.
  intros Hadm. revert T.
  induction e as [v|N name|Op es IH] using expr_nested_ind; intros T HT.
  - reflexivity.
  - simpl in *. rewrite std_get_map in HT.
    destruct (std_get N A) as [a|] eqn:Ha; [|discriminate].
    now rewrite (std_get_app _ _ B _ Ha).
  - pose proof (children_build _ _ _ _ HT) as Hch.
    assert (Forall (fun c => value_of (run order c (A ++ B))
                             = value_of (run order c A)) es) as Hes.
    { rewrite Forall_forall in *. intros c Hc.
      destruct (Hch c Hc) as [Tc HTc]. eapply IH; eauto. }
    simpl. destruct (Invoker Op).
    + rewrite !Invoker_eval_value by assumption.
      now rewrite (all_some_values _ _ es Hes).
    + destruct es as [|e1 [|e2 [|e3 es]]]; try reflexivity. simpl.
      inversion Hes as [|? ? H1 Hes']; subst.
      inversion Hes' as [|? ? H2 _]; subst.
      unfold value_of in H1, H2.
      destruct (run order e1 (A ++ B)) as [[t1 r1]|],
               (run order e1 A) as [[t1' r1']|];
        simpl in H1; try discriminate; try reflexivity.
      inversion H1; subst r1'.
      destruct (truthy r1) as [[|]|]; try reflexivity.
      destruct (run order e2 (A ++ B)) as [[t2 r2]|],
               (run order e2 A) as [[t2' r2']|];
        simpl in H2; try discriminate; try reflexivity.
      inversion H2; subst r2'.
      now destruct (truthy r2).
    + destruct es as [|e1 [|e2 [|e3 es]]]; try reflexivity. simpl.
      inversion Hes as [|? ? H1 Hes']; subst.
      inversion Hes' as [|? ? H2 _]; subst.
      unfold value_of in H1, H2.
      destruct (run order e1 (A ++ B)) as [[t1 r1]|],
               (run order e1 A) as [[t1' r1']|];
        simpl in H1; try discriminate; try reflexivity.
      inversion H1; subst r1'.
      destruct (truthy r1) as [[|]|]; try reflexivity.
      destruct (run order e2 (A ++ B)) as [[t2 r2]|],
               (run order e2 A) as [[t2' r2']|];
        simpl in H2; try discriminate; try reflexivity.
      inversion H2; subst r2'.
      now destruct (truthy r2).
Qed.

(** X2: once an evaluation builds for an argument list, appending
    further arguments changes neither that it builds nor what it
    returns (or that it is undefined): arguments beyond the largest
    index are accepted and never read. *)
Theorem surplus_arguments_are_ignored (order : schedule) (e : expr)
    (A B : list value) :
  admissible order ->
  builds e A = true ->
  same_result (evaluate order e (A ++ B)) (evaluate order e A).
Proof.
  intros Hadm Hb. unfold builds in Hb.
  destruct (result_type e (map type_of A)) as [T|] eqn:HT; [|discriminate].
  pose proof (run_value_app order e A B T Hadm HT) as Hv.
  unfold evaluate, builds.
  rewrite map_app, (result_type_app _ _ (map type_of B) _ HT), HT.
  unfold value_of in Hv.
  destruct (run order e (A ++ B)) as [[t v]|], (run order e A) as [[t' v']|];
    simpl in *; try discriminate; try exact I.
  now inversion Hv.
Qed.

Lemma surplus_arguments_are_ignored_witness :
  same_result
    (evaluate right_to_left (sum2 (Variable_ 1 "x") (Variable_ 2 "y"))
              ([v_int 10; v_int (-5)] ++ [v_string "unused"; v_bool true]))
    (evaluate right_to_left (sum2 (Variable_ 1 "x") (Variable_ 2 "y"))
              [v_int 10; v_int (-5)]).
Proof.
  apply (surplus_arguments_are_ignored right_to_left).
  - exact admissible_right_to_left.
  - reflexivity.
Defined.

(** ** Undefined operands *)

(** X3: the default rule is strict.  If a compound whose operation is
    neither logical AND nor logical OR builds, and the evaluation of
    one of its children is undefined (an overflow or a division by
    zero below it), then the evaluation of the compound is undefined,
    whatever the operation and the other children are. *)
Theorem default_rule_is_strict (order : schedule) (Op : operation)
    (es : list expr) (A : list value) (c : expr) :
  Invoker Op = primary_template ->
  builds (Compound Op es) A = true ->
  In c es ->
  evaluate order c A = Undefined ->
  evaluate order (Compound Op es) A = Undefined.
Proof.
  intros Hprim Hb Hin Hc.
  apply evaluate_Undefined in Hc. destruct Hc as [_ Hc].
  apply evaluate_Undefined. split; [exact Hb|].
  simpl. rewrite Hprim. apply Invoker_eval_undefined.
  apply all_some_None_in. rewrite <- Hc.
  now apply (in_map (fun c => run order c A)).
Qed.

Lemma default_rule_is_strict_witness :
  evaluate left_to_right
           (operator_equal_to
              (Constant (v_int 0))
              (operator_divides (Variable_ 1 "x") (Variable_ 2 "y")))
           [v_int 1; v_int 0]
  = Undefined.
Proof.
  apply (default_rule_is_strict left_to_right std_equal_to _ _
           (operator_divides (Variable_ 1 "x") (Variable_ 2 "y"))).
  - reflexivity.
  - reflexivity.
  - simpl. auto.
  - reflexivity.
Defined.

(** ** Logical compounds of another arity *)

(** X4: the two short-circuit invokers only accept a tuple of two
    sub-expressions.  A logical-AND or logical-OR compound with any
    other number of children can be constructed, but its evaluation
    fails to build for every argument list. *)
Theorem logical_compound_needs_two_children (order : schedule)
    (Op : operation) (es : list expr) (A : list value) :
  Invoker Op <> primary_template ->
  List.length es <> 2%nat ->
  evaluate order (Compound Op es) A = BuildFailure.
Proof.
  intros HOp Hlen. apply evaluate_BuildFailure.
  simpl. destruct (Invoker Op); [congruence| |];
    destruct es as [|e1 [|e2 [|e3 es]]]; simpl in *; try congruence;
    try reflexivity;
    destruct (result_type e1 _); try reflexivity;
    destruct (result_type e2 _); reflexivity.
Qed.

Lemma logical_compound_needs_two_children_witness :
  evaluate left_to_right
           (Compound std_logical_or
                     [Constant (v_bool true); Constant (v_bool true);
                      Constant (v_bool true)])
           []
  = BuildFailure.
Proof.
  apply logical_compound_needs_two_children.
  - discriminate.
  - simpl. lia.
Defined.

(** ** What reaches the nested expressions *)

Lemma in_inside (i : nat) (t : trace) (p : list nat) (a : action) :
  In (p, a) (inside i t) -> exists q, p = i :: q /\ In (q, a) t.
Proof.
  unfold inside. rewrite in_map_iff. intros ([q b] & Heq & Hin).
  simpl in Heq. exists q. split; congruence.
Qed.

Lemma sequence_events (ord : list nat) (rs : list computation) (t' : trace)
    (ev : event) :
  sequence ord rs = Some t' ->
  In ev t' ->
  exists i t v, nth_error rs i = Some (Some (t, v)) /\ In ev (inside i t).
Proof.
  revert t'; induction ord as [|i ord IH]; simpl; intros t' H Hin.
  - inversion H; subst. contradiction.
  - destruct (nth_error rs i) as [[[ti vi]|]|] eqn:Hi; try discriminate.
    destruct (sequence ord rs) as [t''|] eqn:Hs; [|discriminate].
    inversion H; subst. apply in_app_or in Hin. destruct Hin as [Hin|Hin].
    + exists i, ti, vi. auto.
    + eapply IH; eauto.
Qed.

Lemma run_passes_arguments (order : schedule) (e : expr) (A : list value) :
  forall (t : trace) (v : value),
    run order e A = Some (t, v) ->
    forall p args, In (p, Invoke args) t -> args = A.
Proof.
  induction e as [c|N name|Op es IH] using expr_nested_ind;
    intros t v Hrun p args Hin.
  - simpl in Hrun. inversion Hrun; subst.
    destruct Hin as [H|[H|[]]]; inversion H; reflexivity.
  - simpl in Hrun. destruct (std_get N A); [|discriminate].
    inversion Hrun; subst.
    destruct Hin as [H|[H|[]]]; inversion H; reflexivity.
  - rewrite Forall_forall in IH.
    simpl in Hrun. destruct (Invoker Op).
    + unfold Invoker_eval in Hrun.
      destruct (sequence _ _) as [t'|] eqn:Hs; [|discriminate].
      destruct (all_some _) as [tvs|]; [|discriminate].
      destruct (op_call Op _); [|discriminate].
      inversion Hrun; subst. clear Hrun.
      destruct Hin as [H|Hin]; [inversion H; reflexivity|].
      apply in_app_or in Hin. destruct Hin as [Hin|[H|[H|[]]]];
        try (inversion H; fail).
      destruct (sequence_events _ _ _ _ Hs Hin) as (i & ti & vi & Hi & Hev).
      rewrite nth_error_map in Hi.
      destruct (nth_error es i) as [c|] eqn:Hc; [|discriminate].
      simpl in Hi. inversion Hi as [Hci].
      apply in_inside in Hev. destruct Hev as (q & _ & Hq).
      apply nth_error_In in Hc. eapply IH; eauto.
    + destruct es as [|e1 [|e2 [|e3 es]]]; simpl in Hrun; try discriminate.
      destruct (run order e1 A) as [[t1 r1]|] eqn:H1; [|discriminate].
      destruct (truthy r1) as [[|]|]; try discriminate.
      * destruct (run order e2 A) as [[t2 r2]|] eqn:H2; [|discriminate].
        destruct (truthy r2); [|discriminate].
        inversion Hrun; subst. clear Hrun.
        destruct Hin as [H|Hin]; [inversion H; reflexivity|].
        apply in_app_or in Hin. destruct Hin as [Hin|Hin].
        { apply in_inside in Hin. destruct Hin as (q & _ & Hq).
          eapply (IH e1); simpl; eauto. }
        apply in_app_or in Hin. destruct Hin as [Hin|[H|[H|[]]]];
          try (inversion H; fail).
        apply in_inside in Hin. destruct Hin as (q & _ & Hq).
        eapply (IH e2); simpl; eauto.
      * inversion Hrun; subst. clear Hrun.
        destruct Hin as [H|Hin]; [inversion H; reflexivity|].
        apply in_app_or in Hin. destruct Hin as [Hin|[H|[]]];
          try (inversion H; fail).
        apply in_inside in Hin. destruct Hin as (q & _ & Hq).
        eapply (IH e1); simpl; eauto.
    + destruct es as [|e1 [|e2 [|e3 es]]]; simpl in Hrun; try discriminate.
      destruct (run order e1 A) as [[t1 r1]|] eqn:H1; [|discriminate].
      destruct (truthy r1) as [[|]|]; try discriminate.
      * inversion Hrun; subst. clear Hrun.
        destruct Hin as [H|Hin]; [inversion H; reflexivity|].
        apply in_app_or in Hin. destruct Hin as [Hin|[H|[]]];
          try (inversion H; fail).
        apply in_inside in Hin. destruct Hin as (q & _ & Hq).
        eapply (IH e1); simpl; eauto.
      * destruct (run order e2 A) as [[t2 r2]|] eqn:H2; [|discriminate].
        destruct (truthy r2); [|discriminate].
        inversion Hrun; subst. clear Hrun.
        destruct Hin as [H|Hin]; [inversion H; reflexivity|].
        apply in_app_or in Hin. destruct Hin as [Hin|Hin].
        { apply in_inside in Hin. destruct Hin as (q & _ & Hq).
          eapply (IH e1); simpl; eauto. }
        apply in_app_or in Hin. destruct Hin as [Hin|[H|[H|[]]]];
          try (inversion H; fail).
        apply in_inside in Hin. destruct Hin as (q & _ & Hq).
        eapply (IH e2); simpl; eauto.
Qed.

(** X5: the argument list given to an expression is handed on
    unchanged to every nested expression that is invoked, at any
    depth and under every invoker: no call inside an evaluation ever
    sees other arguments than the caller's. *)
Theorem arguments_reach_every_call_unchanged (order : schedule) (e : expr)
    (A : list value) (t : trace) (v : value) :
  evaluate order e A = Returns t v ->
  Forall (fun ev => forall args, snd ev = Invoke args -> args = A) t.
Proof.
  intros H. apply evaluate_Returns in H. destruct H as [_ H].
  apply Forall_forall. intros [p a] Hin args Heq. simpl in Heq. subst a.
  eapply run_passes_arguments; eauto.
Qed.

Lemma arguments_reach_every_call_unchanged_witness :
  Forall (fun ev => forall args, snd ev = Invoke args ->
                                 args = [v_int 0; v_int 7])
         [ ([], Invoke [v_int 0; v_int 7]);
           ([0%nat], Invoke [v_int 0; v_int 7]); ([0%nat], Return (v_int 0));
           ([], Return (v_bool false)) ].
Proof.
  apply (arguments_reach_every_call_unchanged left_to_right
           (operator_logical_and (Variable_ 1 "x") (Variable_ 2 "y"))
           [v_int 0; v_int 7] _ (v_bool false)).
  reflexivity.
Defined.

(** ** Names *)

Lemma result_type_rename (f : nat -> string -> string) (e : expr)
    (Ts : list ctype) :
  result_type (rename f e) Ts = result_type e Ts.
Proof.
  induction e as [v|N name|Op es IH] using expr_nested_ind;
    [reflexivity|reflexivity|].
  simpl. rewrite map_map. now rewrite (map_ext_Forall _ _ es IH).
Qed.

Lemma run_rename (order : schedule) (f : nat -> string -> string) (e : expr)
    (A : list value) :
  run order (rename f e) A = run order e A.
Proof.
  induction e as [v|N name|Op es IH] using expr_nested_ind;
    [reflexivity|reflexivity|].
  simpl. destruct (Invoker Op).
  - unfold Invoker_eval.
    rewrite map_map, length_map. now rewrite (map_ext_Forall _ _ es IH).
  - destruct es as [|e1 [|e2 [|e3 es]]]; try reflexivity. simpl.
    inversion IH as [|? ? H1 IH']; subst. inversion IH' as [|? ? H2 _]; subst.
    now rewrite H1, H2.
  - destruct es as [|e1 [|e2 [|e3 es]]]; try reflexivity. simpl.
    inversion IH as [|? ? H1 IH']; subst. inversion IH' as [|? ? H2 _]; subst.
    now rewrite H1, H2.
Qed.

(** X6: the name of a variable takes no part in evaluation.  Renaming
    the variables of an expression in any way leaves every outcome as
    it was, trace included: variables of one index all stand for the
    same argument. *)
Theorem evaluation_ignores_names (order : schedule)
    (f : nat -> string -> string) (e : expr) (A : list value) :
  evaluate order (rename f e) A = evaluate order e A.
Proof.
  unfold evaluate, builds. now rewrite result_type_rename, run_rename.
Qed.

(** ** Types of returned values *)

(** X7: for expressions over the function objects of [<functional>],
    the two layers agree: the value an evaluation returns has the type
    that template instantiation deduced for the call. *)
Theorem returned_value_has_deduced_type (order : schedule) (e : expr)
    (A : list value) (t : trace) (v : value) :
  std_only e = true ->
  evaluate order e A = Returns t v ->
  result_type e (map type_of A) = Some (type_of v).
Proof.
  intros Hstd H. apply evaluate_Returns in H. destruct H as [Hb Hrun].
  unfold builds in Hb.
  destruct (result_type e (map type_of A)) as [T|] eqn:HT; [|discriminate].
  now rewrite (run_result_type order e A Hstd T t v HT Hrun).
Qed.

Lemma returned_value_has_deduced_type_witness :
  result_type (operator_less (Variable_ 1 "x") (Variable_ 2 "y"))
              (map type_of [v_int 1; v_int 3])
  = Some (type_of (v_bool true)).
Proof.
  apply (returned_value_has_deduced_type left_to_right _ _
           [ ([], Invoke [v_int 1; v_int 3]);
             ([0%nat], Invoke [v_int 1; v_int 3]); ([0%nat], Return (v_int 1));
             ([1%nat], Invoke [v_int 1; v_int 3]); ([1%nat], Return (v_int 3));
             ([], Apply [v_int 1; v_int 3]); ([], Return (v_bool true)) ]).
  - reflexivity.
  - reflexivity.
Defined.

(** ** Comparisons and logical operations always return *)

Lemma comparisons_only_std (e : expr) :
  comparisons_only e = true -> std_only e = true.
Proof.
  induction e as [v|N name|Op es IH] using expr_nested_ind;
    [reflexivity|reflexivity|].
  simpl. intros H. apply andb_true_iff in H. destruct H as [HOp Hes].
  assert (forallb std_only es = true) as Hstd.
  { rewrite forallb_forall in *. rewrite Forall_forall in IH. auto. }
  destruct Op; try discriminate; exact Hstd.
Qed.

Lemma arithmetic_truthy (v : value) :
  arithmetic (type_of v) = true -> exists b, truthy v = Some b.
Proof. destruct v; simpl; try discriminate; eauto. Qed.

Lemma never_undefined_call (Op : operation) (vs : list value) (T : ctype) :
  never_undefined Op = true ->
  op_result_type Op (map type_of vs) = Some T ->
  exists v, op_call Op vs = Some v.
Proof.
  intros HOp HT.
  destruct Op; try discriminate;
    destruct vs as [|[x|x|x] [|[y|y|y] [|c vs]]]; simpl in *;
    try discriminate; eauto.
Qed.

Lemma all_run (order : schedule) (es : list expr) (A : list value) :
  Forall (fun c => exists tv, run order c A = Some tv) es ->
  exists tvs, Forall2 (fun c tv => run order c A = Some tv) es tvs.
Proof.
  induction 1 as [|c es [tv Hc] _ [tvs IH]].
  - exists []. constructor.
  - exists (tv :: tvs). now constructor.
Qed.

Lemma children_types (order : schedule) (A : list value) (es : list expr)
    (tvs : list (trace * value)) (Rs : list ctype) :
  Forall (fun c => std_only c = true) es ->
  Forall2 (fun c tv => run order c A = Some tv) es tvs ->
  Forall2 (fun c T => result_type c (map type_of A) = Some T) es Rs ->
  Rs = map type_of (map snd tvs).
Proof.
  intros Hstd Hrun. revert Rs.
  induction Hrun as [|c [t v] es tvs Hc _ IH]; intros Rs HRs;
    inversion HRs; subst; [reflexivity|].
  inversion Hstd; subst. simpl. f_equal; [|now apply IH].
  symmetry. eapply run_result_type; eauto.
Qed.

Lemma short_circuit_type_inv (Op : operation) (Rs : list (option ctype))
    (T : ctype) :
  short_circuit_type Op Rs = Some T ->
  exists T1 T2,
    Rs = [Some T1; Some T2] /\ arithmetic T1 = true
    /\ op_result_type Op [T1; T2] = Some t_bool /\ T = t_bool.
Proof.
  unfold short_circuit_type.
  destruct Rs as [|[T1|] [|[T2|] [|R Rs]]]; try discriminate.
  destruct (arithmetic T1) eqn:Ha; [|discriminate].
  destruct (op_result_type Op [T1; T2]) as [[| |]|] eqn:Hop; try discriminate.
  intros H; inversion H. exists T1, T2. repeat split; auto.
Qed.

Lemma short_circuit_runs (order : schedule) (Op : operation) (es : list expr)
    (A : list value) (T : ctype) :
  Op = std_logical_and \/ Op = std_logical_or ->
  Forall (fun c => std_only c = true) es ->
  Forall (fun c => exists tv, run order c A = Some tv) es ->
  result_type (Compound Op es) (map type_of A) = Some T ->
  exists t v, run order (Compound Op es) A = Some (t, v).
Proof.
  intros HOp Hstd Hruns HT.
  assert (short_circuit_type Op (map (fun c => result_type c (map type_of A)) es)
          = Some T) as Hsc
      by (destruct HOp; subst Op; exact HT).
  destruct (short_circuit_type_inv _ _ _ Hsc) as (T1 & T2 & HRs & Ha1 & Hop & _).
  destruct es as [|e1 [|e2 [|e3 es]]]; try discriminate.
  simpl in HRs. inversion HRs as [[HT1 HT2]].
  inversion Hstd as [|? ? Hs1 Hstd']; subst.
  inversion Hstd' as [|? ? Hs2 _]; subst.
  inversion Hruns as [|? ? [[t1 r1] H1] Hruns']; subst.
  inversion Hruns' as [|? ? [[t2 r2] H2] _]; subst.
  assert (arithmetic T2 = true) as Ha2.
  { destruct HOp; subst Op; simpl in Hop; rewrite Ha1 in Hop;
      destruct (arithmetic T2); auto; discriminate. }
  rewrite <- (run_result_type order e1 A Hs1 T1 t1 r1 HT1 H1) in Ha1.
  rewrite <- (run_result_type order e2 A Hs2 T2 t2 r2 HT2 H2) in Ha2.
  destruct (arithmetic_truthy _ Ha1) as [b1 Hb1].
  destruct (arithmetic_truthy _ Ha2) as [b2 Hb2].
  destruct HOp; subst Op; simpl; rewrite H1, Hb1; destruct b1; eauto;
    rewrite H2; simpl; rewrite ?Hb1, Hb2; eauto.
Qed.

Lemma comparisons_run (order : schedule) (e : expr) (A : list value) :
  admissible order ->
  comparisons_only e = true ->
  forall T, result_type e (map type_of A) = Some T ->
            exists t v, run order e A = Some (t, v).
Proof.
  intros Hadm.
  induction e as [c|N name|Op es IH] using expr_nested_ind; intros Hcmp T HT.
  - simpl. eauto.
  - simpl in *. rewrite std_get_map in HT.
    destruct (std_get N A) as [a|]; [eauto|discriminate].
  - simpl in Hcmp. apply andb_true_iff in Hcmp. destruct Hcmp as [HOp Hes].
    rewrite forallb_forall in Hes.
    pose proof (children_build _ _ _ _ HT) as Hch.
    assert (Forall (fun c => exists tv, run order c A = Some tv) es) as Hruns.
    { rewrite Forall_forall in *. intros c Hc.
      destruct (Hch c Hc) as [Tc HTc].
      destruct (IH c Hc (Hes c Hc) Tc HTc) as (t & v & Hrun). eauto. }
    assert (Forall (fun c => std_only c = true) es) as Hstd.
    { rewrite Forall_forall. intros c Hc.
      apply comparisons_only_std. auto. }
    destruct (Invoker Op) eqn:HInv.
    + destruct (all_run _ _ _ Hruns) as [tvs Htvs].
      simpl in HT |- *. rewrite HInv in HT |- *.
      destruct (all_some (map (fun c => result_type c (map type_of A)) es))
        as [Rs|] eqn:HRs; [|discriminate].
      apply (all_some_Forall2 (fun c => result_type c (map type_of A))) in HRs.
      rewrite (children_types _ _ _ _ _ Hstd Htvs HRs) in HT.
      destruct (never_undefined_call _ _ _ HOp HT) as [v Hv].
      apply (all_some_Forall2 (fun c => run order c A)) in Htvs.
      rewrite (Invoker_eval_returns _ _ _ _ _ _ Hadm Htvs), Hv. eauto.
    + apply (short_circuit_runs order Op es A T); auto.
      destruct Op; try discriminate; auto.
    + apply (short_circuit_runs order Op es A T); auto.
      destruct Op; try discriminate; auto.
Qed.

(** X8: an expression built from variables, constants, comparisons and
    logical operations only has no undefined evaluation: whenever its
    evaluation builds, it returns a value.  (Arithmetic is what can
    overflow or divide by zero.) *)
Theorem comparisons_always_return (order : schedule) (e : expr)
    (A : list value) :
  admissible order ->
  comparisons_only e = true ->
  builds e A = true ->
  exists t v, evaluate order e A = Returns t v.
Proof.
  intros Hadm Hcmp Hb. pose proof Hb as Hb'. unfold builds in Hb'.
  destruct (result_type e (map type_of A)) as [T|] eqn:HT; [|discriminate].
  destruct (comparisons_run order e A Hadm Hcmp T HT) as (t & v & Hrun).
  exists t, v. apply evaluate_Returns. auto.
Qed.

Lemma comparisons_always_return_witness :
  exists t v,
    evaluate right_to_left
             (operator_logical_or
                (operator_less (Variable_ 1 "x") (Variable_ 2 "y"))
                (operator_logical_not
                   (operator_equal_to (Variable_ 3 "s") (Constant (v_string "a")))))
             [v_int 2; v_bool true; v_string "a"]
    = Returns t v.
Proof.
  apply (comparisons_always_return right_to_left).
  - exact admissible_right_to_left.
  - reflexivity.
  - reflexivity.
Defined.

(** ** The examples, for all arguments *)

#[local] Arguments mk_int : simpl never.

Lemma binary_value (order : schedule) (Op : operation) (c1 c2 : expr)
    (A : list value) :
  admissible order ->
  Invoker Op = primary_template ->
  value_of (run order (Compound Op [c1; c2]) A)
  = match value_of (run order c1 A), value_of (run order c2 A) with
    | Some r1, Some r2 => op_call Op [r1; r2]
    | _, _ => None
    end.
Proof.
  intros Hadm Hprim. simpl. rewrite Hprim, Invoker_eval_value by assumption.
  simpl.
  destruct (run order c1 A) as [[t1 r1]|]; [|reflexivity].
  destruct (run order c2 A) as [[t2 r2]|]; reflexivity.
Qed.

Lemma value_of_None (c : computation) : value_of c = None -> c = None.
Proof. destruct c as [[t v]|]; [discriminate|reflexivity]. Qed.

Lemma is_Eq_compare (s1 s2 : string) :
  is_Eq (String.compare s1 s2) = true <-> s1 = s2.
Proof.
  split.
  - destruct (String.compare s1 s2) eqn:E; simpl; try discriminate.
    intros _. now apply String.compare_eq_iff.
  - intros ->. pose proof (String.compare_antisym s2 s2) as H.
    destruct (String.compare s2 s2); simpl in *;
      try reflexivity; discriminate.
Qed.

(** X9: [sum] of [example/overview1.cc], the sum of the first two
    arguments, is generic.  On two [int]s whose sum is an [int] it
    returns the sum; on two strings it returns their concatenation; on
    an [int] and a string, in either order, it does not build. *)
Theorem sum_is_generic (order : schedule) (name1 name2 : string) :
  admissible order ->
  (forall a b, in_int (a + b) = true ->
     returned (evaluate order
                 (operator_plus (Variable_ 1 name1) (Variable_ 2 name2))
                 [v_int a; v_int b])
     = Some (v_int (a + b)))
  /\ (forall s1 s2,
        returned (evaluate order
                    (operator_plus (Variable_ 1 name1) (Variable_ 2 name2))
                    [v_string s1; v_string s2])
        = Some (v_string (String.append s1 s2)))
  /\ (forall a s,
        evaluate order
          (operator_plus (Variable_ 1 name1) (Variable_ 2 name2))
          [v_int a; v_string s] = BuildFailure
        /\ evaluate order
             (operator_plus (Variable_ 1 name1) (Variable_ 2 name2))
             [v_string s; v_int a] = BuildFailure).
Proof.
  intros Hadm. split; [|split].
  - intros a b Hab. rewrite returned_evaluate. simpl builds. cbv iota.
    unfold operator_plus. rewrite binary_value by (auto; reflexivity).
    simpl. unfold mk_int. now rewrite Hab.
  - intros s1 s2. rewrite returned_evaluate. simpl builds. cbv iota.
    unfold operator_plus. rewrite binary_value by (auto; reflexivity).
    reflexivity.
  - intros a s. split; reflexivity.
Qed.

Lemma sum_is_generic_witness :
  (forall a b, in_int (a + b) = true ->
     returned (evaluate right_to_left
                 (operator_plus (Variable_ 1 "x") (Variable_ 2 "y"))
                 [v_int a; v_int b])
     = Some (v_int (a + b)))
  /\ (forall s1 s2,
        returned (evaluate right_to_left
                    (operator_plus (Variable_ 1 "x") (Variable_ 2 "y"))
                    [v_string s1; v_string s2])
        = Some (v_string (String.append s1 s2)))
  /\ (forall a s,
        evaluate right_to_left
          (operator_plus (Variable_ 1 "x") (Variable_ 2 "y"))
          [v_int a; v_string s] = BuildFailure
        /\ evaluate right_to_left
             (operator_plus (Variable_ 1 "x") (Variable_ 2 "y"))
             [v_string s; v_int a] = BuildFailure).
Proof.
  apply (sum_is_generic right_to_left "x" "y").
  exact admissible_right_to_left.
Defined.

(** X10: [commutativity_check] of [example/compound.cc],
    [(_1 + _2) == (_2 + _1)].  On two [int]s it returns [true]
    whenever their sum is an [int], and is undefined otherwise; on two
    strings it returns [true] exactly when the two concatenations are
    the same string. *)
Theorem commutativity_check_on_ints_and_strings (order : schedule) :
  admissible order ->
  (forall a b, in_int (a + b) = true ->
     returned (evaluate order commutativity_check [v_int a; v_int b])
     = Some (v_bool true))
  /\ (forall a b, in_int (a + b) = false ->
        evaluate order commutativity_check [v_int a; v_int b] = Undefined)
  /\ (forall s1 s2, exists b,
        returned (evaluate order commutativity_check [v_string s1; v_string s2])
        = Some (v_bool b)
        /\ (b = true <-> String.append s1 s2 = String.append s2 s1)).
Proof.
  intros Hadm.
  assert (forall A,
             value_of (run order commutativity_check A)
             = match
                 match std_get 1 A, std_get 2 A with
                 | Some r1, Some r2 => op_call std_plus [r1; r2]
                 | _, _ => None
                 end,
                 match std_get 2 A, std_get 1 A with
                 | Some r2, Some r1 => op_call std_plus [r2; r1]
                 | _, _ => None
                 end
               with
               | Some l, Some r => op_call std_equal_to [l; r]
               | _, _ => None
               end) as Hvalue.
  { intros A. unfold commutativity_check, operator_equal_to, operator_plus,
      Variable_default.
    rewrite !binary_value by (auto; reflexivity). simpl.
    destruct A as [|a1 [|a2 A]]; reflexivity. }
  split; [|split].
  - intros a b Hab. rewrite returned_evaluate. simpl builds. cbv iota.
    rewrite Hvalue. simpl. unfold mk_int.
    rewrite (Z.add_comm b a), Hab. simpl. now rewrite Z.eqb_refl.
  - intros a b Hab. apply evaluate_Undefined. split; [reflexivity|].
    apply value_of_None. rewrite Hvalue. simpl. unfold mk_int.
    now rewrite (Z.add_comm b a), Hab.
  - intros s1 s2.
    exists (is_Eq (String.compare (String.append s1 s2) (String.append s2 s1))).
    split; [|apply is_Eq_compare].
    rewrite returned_evaluate. simpl builds. cbv iota.
    rewrite Hvalue. reflexivity.
Qed.

Lemma commutativity_check_on_ints_and_strings_witness :
  returned (evaluate left_to_right commutativity_check [v_int 1; v_int 2])
  = Some (v_bool true)
  /\ evaluate left_to_right commutativity_check
              [v_int INT_MAX; v_int 1] = Undefined.
Proof.
  pose proof (commutativity_check_on_ints_and_strings left_to_right
                admissible_left_to_right) as (Hint & Hover & _).
  split.
  - apply (Hint 1 2). reflexivity.
  - apply (Hover INT_MAX 1). reflexivity.
Defined.

(** * Further properties of the printer *)

Lemma print_tuple_comma_separated (size : nat) (tuple : list expr)
    (rs : list string) :
  Forall2 (fun c r => to_string c = Some r) tuple rs ->
  forall I os,
    size = (I + List.length tuple)%nat ->
    print_tuple size I os tuple
    = Some (String.append os (comma_separated rs)).
Proof.
  induction 1 as [|x r rest rs' Hx Hrest IH]; intros I os Hsize; simpl.
  - now rewrite append_empty_r.
  - rewrite stream_put, Hx. simpl.
    destruct Hrest as [|x' r' rest' rs'' Hx' Hrest'].
    + simpl in *. unfold emit_separator.
      replace (size <=? I + 1)%nat with true
        by (symmetry; apply Nat.leb_le; lia).
      reflexivity.
    + unfold emit_separator.
      replace (size <=? I + 1)%nat with false
        by (symmetry; apply Nat.leb_gt; simpl in Hsize; lia).
      rewrite IH by (simpl in *; lia).
      unfold put. now rewrite !append_assoc.
Qed.

(** X12: the call form.  A compound with no child, with three children
    or more, or with two children and an operation that has a
    [prefixed] member, prints as the symbol followed by its children in
    parentheses, separated by a comma and a space, with no separator
    after the last.  For none or more than two children the [prefixed]
    member plays no part. *)
Theorem compound_prints_in_call_form (Op : operation) (es : list expr)
    (op : string) (rs : list string) :
  to_string_op Op = Some op ->
  Forall2 (fun c r => to_string c = Some r) es rs ->
  List.length es <> 1%nat ->
  (List.length es = 2%nat -> prefixed Op = true) ->
  to_string (Compound Op es)
  = Some (op ++ "(" ++ comma_separated rs ++ ")")%string.
Proof.
  intros Hop Hes H1 H2.
  pose proof (print_tuple_comma_separated (List.length es) es rs Hes 0%nat
                (put (put EmptyString op) "(") eq_refl) as Hprint.
  unfold to_string. rewrite stream_Compound, Hop.
  destruct es as [|x1 [|x2 [|x3 es]]].
  - rewrite Hprint. unfold put. simpl. now rewrite !append_assoc.
  - simpl in H1. congruence.
  - rewrite (H2 eq_refl), Hprint. unfold put. simpl.
    now rewrite !append_assoc.
  - rewrite Hprint. unfold put. simpl. now rewrite !append_assoc.
Qed.

Lemma compound_prints_in_call_form_witness :
  to_string (Compound (user CustomOperator)
                      [operator_less (Variable_ 1 "x") (Variable_ 2 "y");
                       Variable_ 1 "x"; Variable_ 2 "y"])
  = Some ("?:" ++ "(" ++ comma_separated ["x < y"; "x"; "y"] ++ ")")%string.
Proof.
  apply compound_prints_in_call_form.
  - reflexivity.
  - repeat constructor.
  - simpl. lia.
  - simpl. lia.
Defined.

(** ** Which expressions print *)








(** ** Nested infix compounds *)

Lemma infix_rendering (Op : operation) (c1 c2 : expr) (op r1 r2 : string) :
  prefixed Op = false ->
  to_string_op Op = Some op ->
  to_string c1 = Some r1 ->
  to_string c2 = Some r2 ->
  to_string (Compound Op [c1; c2]) = Some (r1 ++ " " ++ op ++ " " ++ r2)%string.
Proof.
  intros Hpre Hop H1 H2.
  unfold to_string at 1. rewrite stream_Compound, Hop, Hpre.
  rewrite stream_put, H1. cbn [onto option_map].
  rewrite stream_put, H2. cbn [onto option_map].
  unfold put. simpl. now rewrite !append_assoc.
Qed.

(** X14: the printer never brackets.  For two infix operations, the
    compound that applies the first to [(a second b)] and [c] and the
    compound that applies the second to [a] and [(b first c)] print as
    the same text, so the text of an expression does not determine the
    expression; for the product of a sum and the sum with a product the
    two print alike and evaluate differently. *)
Theorem printing_does_not_bracket (Op1 Op2 : operation) (a b c : expr)
    (o1 o2 ra rb rc : string) :
  prefixed Op1 = false -> prefixed Op2 = false ->
  to_string_op Op1 = Some o1 -> to_string_op Op2 = Some o2 ->
  to_string a = Some ra -> to_string b = Some rb -> to_string c = Some rc ->
  to_string (Compound Op1 [Compound Op2 [a; b]; c])
  = Some (ra ++ " " ++ o2 ++ " " ++ rb ++ " " ++ o1 ++ " " ++ rc)%string
  /\ to_string (Compound Op2 [a; Compound Op1 [b; c]])
     = Some (ra ++ " " ++ o2 ++ " " ++ rb ++ " " ++ o1 ++ " " ++ rc)%string
  /\ returned (evaluate left_to_right
                 (operator_multiplies
                    (operator_plus (Variable_ 1 "a") (Variable_ 2 "b"))
                    (Variable_ 3 "c"))
                 [v_int 1; v_int 2; v_int 3])
     <> returned (evaluate left_to_right
                    (operator_plus
                       (Variable_ 1 "a")
                       (operator_multiplies (Variable_ 2 "b") (Variable_ 3 "c")))
                    [v_int 1; v_int 2; v_int 3]).
Proof.
  intros Hp1 Hp2 Ho1 Ho2 Ha Hb Hc. split; [|split].
  - rewrite (infix_rendering Op1 _ c o1 (ra ++ " " ++ o2 ++ " " ++ rb)%string rc
               Hp1 Ho1 (infix_rendering Op2 a b o2 ra rb Hp2 Ho2 Ha Hb) Hc).
    now rewrite !append_assoc.
  - now rewrite (infix_rendering Op2 a _ o2 ra (rb ++ " " ++ o1 ++ " " ++ rc)%string
                   Hp2 Ho2 Ha (infix_rendering Op1 b c o1 rb rc Hp1 Ho1 Hb Hc)).
  - vm_compute. discriminate.
Qed.

Lemma printing_does_not_bracket_witness :
  to_string (Compound std_multiplies
               [Compound std_plus [Variable_ 1 "a"; Variable_ 2 "b"];
                Variable_ 3 "c"])
  = Some "a + b * c"
  /\ to_string (Compound std_plus
                  [Variable_ 1 "a";
                   Compound std_multiplies [Variable_ 2 "b"; Variable_ 3 "c"]])
     = Some "a + b * c".
Proof.
  pose proof (printing_does_not_bracket std_multiplies std_plus
                (Variable_ 1 "a") (Variable_ 2 "b") (Variable_ 3 "c")
                "*" "+" "a" "b" "c"
                eq_refl eq_refl eq_refl eq_refl eq_refl eq_refl eq_refl)
    as (H1 & H2 & _).
  split; [exact H1|exact H2].
Defined.

(** ** Default names *)

Lemma std_to_string_inj (n m : nat) :
  std_to_string n = std_to_string m -> n = m.
Proof.
  unfold std_to_string. intros H.
  apply DecimalNat.Unsigned.to_uint_inj.
  assert (forall k, Nat.to_uint k <> Decimal.Nil) as Hnil.
  { intros k Hk.
    pose proof (DecimalNat.Unsigned.of_to k) as Hof.
    pose proof (DecimalNat.Unsigned.to_of (Nat.to_uint k)) as Hto.
    rewrite Hof in Hto. rewrite Hk in Hto at 2. simpl in Hto.
    rewrite Hk in Hto. discriminate. }
  pose proof (NilZero.usu _ (Hnil n)) as Hn.
  pose proof (NilZero.usu _ (Hnil m)) as Hm.
  rewrite H in Hn. congruence.
Qed.

(** X15: the names given to nameless variables tell them apart.  The
    default name is an underscore followed by the index in decimal, and
    nameless variables of different indices print differently. *)
Theorem default_names_are_distinct (N M : nat) :
  N <> M ->
  to_string (Variable_default N)
  = Some (String.append "_" (std_to_string N))
  /\ to_string (Variable_default N) <> to_string (Variable_default M).
Proof.
  intros HNM. split; [reflexivity|].
  unfold to_string, Variable_default. simpl. unfold put. simpl.
  intros H. inversion H as [Heq]. apply HNM.
  now apply std_to_string_inj.
Qed.

Lemma default_names_are_distinct_witness :
  to_string (Variable_default 1) = Some (String.append "_" (std_to_string 1))
  /\ to_string (Variable_default 1) <> to_string (Variable_default 10).
Proof. apply (default_names_are_distinct 1 10). lia. Defined.

(** * Composition of values *)

Lemma all_some_option_map {X Y Z : Type} (f : X -> option Y) (g : Y -> Z)
    (l : list X) :
  all_some (map (fun x => option_map g (f x)) l)
  = option_map (map g) (all_some (map f l)).
Proof.
  induction l as [|x l IH]; simpl; [reflexivity|].
  destruct (f x) as [y|]; simpl; [|reflexivity].
  rewrite IH. now destruct (all_some (map f l)).
Qed.

(** X16: the nesting law.  For a compound that builds and whose
    operation is neither logical AND nor logical OR, the value returned
    is the operation applied to the values returned by the children,
    taken in child order, whatever order they were evaluated in; if
    some child returns no value, or the operation has no defined
    result on the children's values, the compound returns none
    either. *)
Theorem compound_value_is_operation_on_child_values (order : schedule)
    (Op : operation) (es : list expr) (A : list value) :
  admissible order ->
  Invoker Op = primary_template ->
  builds (Compound Op es) A = true ->
  returned (evaluate order (Compound Op es) A)
  = match all_some (map (fun c => returned (evaluate order c A)) es) with
    | Some Rs => op_call Op Rs
    | None => None
    end.
Proof.
  intros Hadm Hprim Hb.
  assert (map (fun c => returned (evaluate order c A)) es
          = map (fun c => option_map snd (run order c A)) es) as Hmap.
  { apply map_ext_Forall.
    unfold builds in Hb.
    destruct (result_type (Compound Op es) (map type_of A)) as [T|] eqn:HT;
      [|discriminate].
    pose proof (children_build _ _ _ _ HT) as Hch.
    rewrite Forall_forall in *. intros c Hc.
    destruct (Hch c Hc) as [Tc HTc].
    rewrite returned_evaluate. unfold builds. now rewrite HTc. }
  rewrite Hmap, (all_some_option_map (fun c => run order c A) snd es).
  rewrite returned_evaluate, Hb. simpl. rewrite Hprim.
  now apply Invoker_eval_value.
Qed.

Lemma compound_value_is_operation_on_child_values_witness :
  returned (evaluate right_to_left
              (Compound std_minus
                 [operator_multiplies (Variable_ 1 "x") (Variable_ 1 "x");
                  Constant (v_int 1)])
              [v_int 5])
  = match
      all_some
        (map (fun c => returned (evaluate right_to_left c [v_int 5]))
             [operator_multiplies (Variable_ 1 "x") (Variable_ 1 "x");
              Constant (v_int 1)])
    with
    | Some Rs => op_call std_minus Rs
    | None => None
    end.
Proof.
  apply compound_value_is_operation_on_child_values.
  - exact admissible_right_to_left.
  - reflexivity.
  - reflexivity.
Defined.

(** * Operands held by reference *)

(** An expression depends on the caller's memory only through the
    objects it refers to. *)
Lemma read_frame (m m' : memory) (h : held) :
  (forall l, In l (references h) -> m l = m' l) ->
  read m h = read m' h.
Proof.
  induction h as [v|l|N name|Op hs IH] using held_nested_ind; intros Hm;
    simpl; try reflexivity.
  - rewrite (Hm l); [reflexivity|simpl; auto].
  - f_equal. apply map_ext_Forall.
    rewrite Forall_forall in *. intros c Hc. apply IH; [exact Hc|].
    intros l Hl. apply Hm. simpl. apply in_flat_map. eauto.
Qed.

Lemma session_frame (order : schedule) (h : held) (program : list statement) :
  forall m m',
    (forall l, In l (references h) -> m l = m' l) ->
    session order h m program = session order h m' program.
Proof.
  induction program as [|[A|l v] rest IH]; intros m m' Hm; simpl.
  - reflexivity.
  - rewrite (read_frame m m' h Hm). f_equal. now apply IH.
  - apply IH. intros l' Hl'. unfold update.
    destruct (l' =? l)%nat; [reflexivity|now apply Hm].
Qed.

(** X18: an expression depends on the caller's objects only through
    the lvalue operands it was built from.  An assignment to an object
    the expression does not refer to changes the outcome of none of
    its later calls; an expression built without lvalue operands is
    affected by no assignment at all. *)
Theorem assignment_elsewhere_is_invisible (order : schedule) (h : held)
    (m : memory) (l : location) (v : value) (program : list statement) :
  ~ In l (references h) ->
  session order h m (assign l v :: program) = session order h m program.
Proof.
  intros Hl. simpl. apply session_frame.
  intros l' Hl'. unfold update.
  destruct (Nat.eqb_spec l' l) as [->|_]; [contradiction|reflexivity].
Qed.

Lemma assignment_elsewhere_is_invisible_witness :
  session right_to_left
          (operator_plus_ET_lvalue (Variable_held 1 "_1") 0%nat)
          (fun _ => v_int 1)
          [assign 1%nat (v_int 100); call_with [v_int 3]]
  = session right_to_left
            (operator_plus_ET_lvalue (Variable_held 1 "_1") 0%nat)
            (fun _ => v_int 1)
            [call_with [v_int 3]].
Proof.
  apply assignment_elsewhere_is_invisible.
  simpl. intros [H|[]]. discriminate.
Defined.

(** C9: the claim asks that two evaluations of one built expression
    with one argument list return the same result, and the constructor
    of [Constant] is documented to copy its operand.  The expression
    [a + k], built from the variable of index 1 and the caller's [int]
    [k], refers to [k] instead: called with 3 while [k] holds 1 it
    returns 4; called with 3 again, after the caller has assigned 100
    to [k], it returns 103. *)
Theorem lvalue_operand_breaks_repeatability :
  session left_to_right
          (operator_plus_ET_lvalue (Variable_held 1 "_1") 0%nat)
          (fun _ => v_int 1)
          [call_with [v_int 3]; assign 0%nat (v_int 100); call_with [v_int 3]]
  = [ Returns [ ([], Invoke [v_int 3]);
                ([0%nat], Invoke [v_int 3]); ([0%nat], Return (v_int 3));
                ([1%nat], Invoke [v_int 3]); ([1%nat], Return (v_int 1));
                ([], Apply [v_int 3; v_int 1]); ([], Return (v_int 4)) ]
              (v_int 4);
      Returns [ ([], Invoke [v_int 3]);
                ([0%nat], Invoke [v_int 3]); ([0%nat], Return (v_int 3));
                ([1%nat], Invoke [v_int 3]); ([1%nat], Return (v_int 100));
                ([], Apply [v_int 3; v_int 100]); ([], Return (v_int 103)) ]
              (v_int 103) ]
  /\ v_int 4 <> v_int 103.
Proof. split; [reflexivity|discriminate]. Qed.
